(** * stateful-controller-browser-router: a model of [lib/Router.js]

    The router keeps [currentStateList] in step with the browser's session
    history while it serialises state transitions of a front controller.

    The embedding follows the source closely.  The fields of [this] form the
    record [Router]; the three promise chains built by [enterStates],
    [_handleHistoryState] and [_doQueuedTransition] are kept as the
    [continuation] of the transition in flight; everything that the outside
    can observe (calls of the front controller, writes to the history stack,
    emitted events, settlements of promises) is appended to a chronological
    [trace].

    The front controller is the environment: [frontController.state] hands
    back a promise, and the step [settle] is the moment at which that promise
    is fulfilled or rejected.  The handlers chained behind it ([then],
    [finally], [return], [then (resolve, reject)]) run in that order and
    without interruption, which is how the promise library drains a chain of
    handlers that do not themselves wait for anything. *)

From Stdlib Require Import String List Bool Arith Lia.
Import ListNotations.
Open Scope string_scope.
Open Scope list_scope.

(** ** Data *)

Definition StateList := list string.
Definition url := string.
(** A thrown or rejected [Error], identified by its message. *)
Definition error := string.
(** Identity of a promise object. *)
Definition pid := nat.

(** Values found in [history.state] and in the [state] of a popstate event.
    Any structured value may be stored there by other code of the page. *)
Inductive HistoryState :=
| HNull
| HFalsy (k : nat)      (* a falsy value other than null: 0, '', false *)
| HForeign (k : nat)    (* a truthy value without a truthy statefulControllerRouterUrl *)
| HOwn (u : url).       (* { statefulControllerRouterUrl: { url: u } } *)

Definition truthy (h : HistoryState) : bool :=
  match h with
  | HNull | HFalsy _ => false
  | HForeign _ | HOwn _ => true
  end.

(** [h && h.statefulControllerRouterUrl] as a condition. *)
Definition hasRouterUrl (h : HistoryState) : bool :=
  match h with
  | HOwn _ => true
  | _ => false
  end.

(** [a || b] on history states. *)
Definition hs_or (a b : HistoryState) : HistoryState :=
  if truthy a then a else b.

Inductive outcome :=
| Fulfilled                (* resolved, with null *)
| Rejected (e : error).

Inductive completion :=
| Return (p : option pid)  (* a promise, or undefined *)
| Throw (e : error).

Record URLStateMap := {
  toURL : StateList -> url + error;
  fromURL : url -> StateList + error
}.

(** The part of [window] the router touches.  [location] stands for
    [location.pathname + location.search]. *)
Record Window := {
  location : string;
  history_state : HistoryState;
  popstateListener : bool
}.

Record Queue := {
  hasEntry : bool;
  q_stateList : option StateList;
  fromHistory : option url;       (* None is [false] *)
  upgrade : bool;
  push : bool;
  promise : option pid            (* with its resolve and reject *)
}.

Definition emptyQueue : Queue :=
  {| hasEntry := false; q_stateList := None; fromHistory := None;
     upgrade := false; push := false; promise := None |}.

Record Router := {
  window : Window;
  currentStateList : option StateList;
  _pendingTransitionPromise : option pid;
  _pendingReplace : option StateList;
  _initialHistoryState : HistoryState;
  _queue : Queue
}.

(** What the handlers chained to [frontController.state(...)] have captured,
    one constructor per chain in the source. *)
Inductive continuation :=
| EnterStatesK (stateList : StateList) (pushHistory : bool)
| HandleHistoryStateK (stateList : StateList) (u : url)
| DoQueuedTransitionK (stateList : StateList) (fromHist : option url)
                      (push : bool) (resolveReject : option pid).

Record Transition := {
  t_then : continuation;
  t_promise : pid
}.

Definition k_stateList (k : continuation) : StateList :=
  match k with
  | EnterStatesK sl _ => sl
  | HandleHistoryStateK sl _ => sl
  | DoQueuedTransitionK sl _ _ _ => sl
  end.

Inductive event :=
| FrontControllerState (stateList : StateList) (upgrade : option bool)
| FrontControllerSettled (o : outcome)
| PushState (h : HistoryState) (u : url)
| ReplaceState (h : HistoryState) (u : url)
| AddEventListener
(* emit(name, stateList, url[, promise]); [cur] and [pend] are what a
   listener reads from router.currentStateList and router.pending *)
| Emit (name : string) (stateList : StateList) (u : url) (p : option pid)
       (cur : option StateList) (pend : bool)
| Settled (p : pid) (o : outcome).

Record World := {
  router : Router;
  inflight : option Transition;
  fresh : pid;
  trace : list event
}.

(** ** Field updates *)

Definition on_router (f : Router -> Router) (w : World) : World :=
  {| router := f (router w); inflight := inflight w;
     fresh := fresh w; trace := trace w |}.

Definition set_inflight (t : option Transition) (w : World) : World :=
  {| router := router w; inflight := t; fresh := fresh w; trace := trace w |}.

Definition log (e : event) (w : World) : World :=
  {| router := router w; inflight := inflight w;
     fresh := fresh w; trace := trace w ++ [e] |}.

(** [new Promise(...)]: hands out the next identity. *)
Definition newPromise (w : World) : World * pid :=
  ({| router := router w; inflight := inflight w;
      fresh := S (fresh w); trace := trace w |}, fresh w).

Definition set_window (x : Window) (r : Router) : Router :=
  {| window := x; currentStateList := currentStateList r;
     _pendingTransitionPromise := _pendingTransitionPromise r;
     _pendingReplace := _pendingReplace r;
     _initialHistoryState := _initialHistoryState r; _queue := _queue r |}.

Definition set_currentStateList (x : option StateList) (r : Router) : Router :=
  {| window := window r; currentStateList := x;
     _pendingTransitionPromise := _pendingTransitionPromise r;
     _pendingReplace := _pendingReplace r;
     _initialHistoryState := _initialHistoryState r; _queue := _queue r |}.

Definition set_pendingTransitionPromise (x : option pid) (r : Router) : Router :=
  {| window := window r; currentStateList := currentStateList r;
     _pendingTransitionPromise := x;
     _pendingReplace := _pendingReplace r;
     _initialHistoryState := _initialHistoryState r; _queue := _queue r |}.

Definition set_pendingReplace (x : option StateList) (r : Router) : Router :=
  {| window := window r; currentStateList := currentStateList r;
     _pendingTransitionPromise := _pendingTransitionPromise r;
     _pendingReplace := x;
     _initialHistoryState := _initialHistoryState r; _queue := _queue r |}.

Definition set_initialHistoryState (x : HistoryState) (r : Router) : Router :=
  {| window := window r; currentStateList := currentStateList r;
     _pendingTransitionPromise := _pendingTransitionPromise r;
     _pendingReplace := _pendingReplace r;
     _initialHistoryState := x; _queue := _queue r |}.

Definition set_queue (x : Queue) (r : Router) : Router :=
  {| window := window r; currentStateList := currentStateList r;
     _pendingTransitionPromise := _pendingTransitionPromise r;
     _pendingReplace := _pendingReplace r;
     _initialHistoryState := _initialHistoryState r; _queue := x |}.

(** The host: [history.pushState] and [history.replaceState] store the state
    object in the current entry and move the location to the written url. *)
Definition host_write (h : HistoryState) (u : url) (x : Window) : Window :=
  {| location := u; history_state := h;
     popstateListener := popstateListener x |}.

Definition host_listen (x : Window) : Window :=
  {| location := location x; history_state := history_state x;
     popstateListener := true |}.

(** ** The router *)

Section Router.

Variable urlStateMap : URLStateMap.

(** [new Router(window, urlStateMap, frontController)], lines 20-66. *)
Definition newRouter (x : Window) : World :=
  {| router := {| window := x; currentStateList := None;
                  _pendingTransitionPromise := None;
                  _pendingReplace := None;
                  _initialHistoryState := HNull;
                  _queue := emptyQueue |};
     inflight := None; fresh := 0; trace := [] |}.

(** The getter [pending], lines 229-234: [!!this._pendingTransitionPromise]. *)
Definition pending (r : Router) : bool :=
  match _pendingTransitionPromise r with
  | Some _ => true
  | None => false
  end.

Definition emit (name : string) (sl : StateList) (u : url) (p : option pid)
    (w : World) : World :=
  log (Emit name sl u p (currentStateList (router w)) (pending (router w))) w.

(** Lines 279-286. *)
Definition _urlToHistoryState (u : url) : HistoryState := HOwn u.

(** Lines 237-249. *)
Definition _saveStateAsInitial (w : World) : World :=
  let x := window (router w) in
  if hasRouterUrl (history_state x)
  then on_router (set_initialHistoryState (history_state x)) w
  else on_router (set_initialHistoryState (_urlToHistoryState (location x))) w.

(** Lines 251-270.  The queue keeps its promise from one call to the next;
    only the first call on an empty slot makes a new one. *)
Definition _addToQueue (stateList : StateList) (fromHist : option url)
    (upg push : bool) (w : World) : World * pid :=
  match promise (_queue (router w)) with
  | Some p =>
      (on_router (set_queue {| hasEntry := true; q_stateList := Some stateList;
                               fromHistory := fromHist; upgrade := upg;
                               push := push; promise := Some p |}) w, p)
  | None =>
      let '(w1, p) := newPromise w in
      (on_router (set_queue {| hasEntry := true; q_stateList := Some stateList;
                               fromHistory := fromHist; upgrade := upg;
                               push := push; promise := Some p |}) w1, p)
  end.

(** Lines 288-304.  [inr e] stands for [toURL] throwing [e], before the
    history is touched. *)
Definition _pushHistoryState (stateList : StateList) (push : bool) (w : World)
    : World * (url + error) :=
  match toURL urlStateMap stateList with
  | inr e => (w, inr e)
  | inl u =>
      let h := _urlToHistoryState u in
      let w1 := on_router (fun r => set_window (host_write h u (window r)) r) w in
      (log (if push then PushState h u else ReplaceState h u) w1, inl u)
  end.

(** Calls [frontController.state] and installs the chain of handlers [k]
    behind the promise it returns; the last promise of the chain becomes
    [_pendingTransitionPromise]. *)
Definition startTransition (stateList : StateList) (upg : option bool)
    (k : continuation) (w : World) : World * pid :=
  let w1 := log (FrontControllerState stateList upg) w in
  let '(w2, p) := newPromise w1 in
  (set_inflight (Some {| t_then := k; t_promise := p |})
     (on_router (set_pendingTransitionPromise (Some p)) w2), p).

(** Lines 350-402, up to the chain, which is [DoQueuedTransitionK]. *)
Definition _doQueuedTransition (w : World) : World :=
  let q := _queue (router w) in
  if hasEntry q then
    let stateList := match q_stateList q with Some sl => sl | None => [] end in
    let w1 := on_router (set_queue emptyQueue) w in
    fst (startTransition stateList (Some (upgrade q))
           (DoQueuedTransitionK stateList (fromHistory q) (push q) (promise q))
           w1)
  else w.

(** [this._pendingReplace || stateList] *)
Definition replaceOr (r : Router) (stateList : StateList) : StateList :=
  match _pendingReplace r with
  | Some x => x
  | None => stateList
  end.

(** The [then] handler of each chain (lines 157-162, 327-331 and 376-392).
    The outcome is [Rejected] when the handler throws. *)
Definition on_fulfilled (k : continuation) (w : World) : World * outcome :=
  match k with
  | EnterStatesK stateList pushHistory =>
      let cur := replaceOr (router w) stateList in
      let w1 := on_router (set_currentStateList (Some cur)) w in
      match _pushHistoryState cur pushHistory w1 with
      | (w2, inl u) => (emit "transitionComplete" stateList u None w2, Fulfilled)
      | (w2, inr e) => (w2, Rejected e)
      end
  | HandleHistoryStateK stateList u =>
      let w1 := on_router (set_currentStateList (Some stateList)) w in
      (emit "transitionComplete" stateList u None w1, Fulfilled)
  | DoQueuedTransitionK stateList fromHist push _ =>
      let cur := replaceOr (router w) stateList in
      let w1 := on_router (set_currentStateList (Some cur)) w in
      match fromHist with
      | None =>
          match _pushHistoryState cur push w1 with
          | (w2, inl u) =>
              (emit "transitionComplete" stateList u None w2, Fulfilled)
          | (w2, inr e) => (w2, Rejected e)
          end
      | Some u => (emit "transitionComplete" stateList u None w1, Fulfilled)
      end
  end.

(** The [finally] handler of each chain (lines 163-168, 332-336 and
    393-398). *)
Definition on_finally (k : continuation) (w : World) : World :=
  match k with
  | EnterStatesK _ _ =>
      let w1 := on_router (set_pendingReplace None) w in
      let w2 := on_router (set_pendingTransitionPromise None) w1 in
      _doQueuedTransition w2
  | HandleHistoryStateK _ _ =>
      let w1 := on_router (set_pendingTransitionPromise None) w in
      _doQueuedTransition w1
  | DoQueuedTransitionK _ _ _ _ =>
      let w1 := on_router (set_pendingTransitionPromise None) w in
      let w2 := on_router (set_pendingReplace None) w1 in
      _doQueuedTransition w2
  end.

(** What follows [finally]: [.return(null)] for the first two chains,
    [.return(null).then(resolve, reject).return(null)] for the queued one
    (lines 399-401), whose [resolve] and [reject] settle the promise of the
    queue. *)
Definition on_return (t : Transition) (o : outcome) (w : World) : World :=
  match t_then t with
  | DoQueuedTransitionK _ _ _ rr =>
      let w1 := match rr with
                | Some q => log (Settled q o) w
                | None => w
                end in
      log (Settled (t_promise t) Fulfilled) w1
  | _ => log (Settled (t_promise t) o) w
  end.

(** [.then(handler)] behind the promise of the front controller: a rejection
    passes the handler by. *)
Definition on_settled (k : continuation) (o : outcome) (w : World)
    : World * outcome :=
  match o with
  | Fulfilled => on_fulfilled k w
  | Rejected e => (w, Rejected e)
  end.

(** The promise of the front controller settles with [o]. *)
Definition settle (o : outcome) (w : World) : World :=
  match inflight w with
  | None => w
  | Some t =>
      let w0 := log (FrontControllerSettled o) (set_inflight None w) in
      let '(w1, o1) := on_settled (t_then t) o w0 in
      on_return t o1 (on_finally (t_then t) w1)
  end.

Definition default_true (b : option bool) : bool :=
  match b with
  | Some x => x
  | None => true
  end.

Definition pendingError : error := "A previous state transition is still pending".

(** Lines 143-171.  [pushHistory = None] is an omitted argument. *)
Definition enterStates (stateList : StateList) (pushHistory : option bool)
    (w : World) : World * completion :=
  let pushHistory := default_true pushHistory in
  if pending (router w) then
    (* Promise.method turns the throw into a rejected promise *)
    let '(w1, p) := newPromise w in
    (log (Settled p (Rejected pendingError)) w1, Return (Some p))
  else
    let '(w1, p) := startTransition stateList None
                      (EnterStatesK stateList pushHistory) w in
    (w1, Return (Some p)).

(** Lines 190-205. *)
Definition queueEnterStates (stateList : StateList) (pushHistory : option bool)
    (w : World) : World * completion :=
  let pushHistory' := default_true pushHistory in
  if pending (router w) then
    let '(w1, p) := _addToQueue stateList None false pushHistory' w in
    (w1, Return (Some p))
  else enterStates stateList (Some pushHistory') w.

(** Lines 211-222. *)
Definition replaceStateList (stateList : StateList) (w : World)
    : World * completion :=
  if pending (router w) then
    (on_router (set_pendingReplace (Some stateList)) w, Return None)
  else
    let w1 := on_router (set_currentStateList (Some stateList)) w in
    match _pushHistoryState stateList false w1 with
    | (w2, inl _) => (w2, Return None)
    | (w2, inr e) => (w2, Throw e)
    end.

(** Lines 306-348.  [Throw e] stands for [fromURL] throwing [e]. *)
Definition _handleHistoryState (historyState : HistoryState) (upg : bool)
    (event : string) (w : World) : World * completion :=
  match historyState with
  | HOwn u =>
      match fromURL urlStateMap u with
      | inr e => (w, Throw e)
      | inl stateList =>
          let '(w1, p) :=
            if pending (router w)
            then _addToQueue stateList (Some u) upg false w
            else startTransition stateList (Some upg)
                   (HandleHistoryStateK stateList u) w in
          (emit event stateList u (Some p) w1, Return (Some p))
      end
  | _ => (w, Return None)
  end.

(** Lines 109-117. *)
Definition attachPopStateListener (w : World) : World * completion :=
  let w1 := log AddEventListener
              (on_router (fun r => set_window (host_listen (window r)) r) w) in
  if truthy (_initialHistoryState (router w1))
  then (w1, Return None)
  else (_saveStateAsInitial w1, Return None).

(** Lines 127-131. *)
Definition upgradeInitialState (w : World) : World * completion :=
  let w1 := _saveStateAsInitial w in
  _handleHistoryState (_initialHistoryState (router w1)) true
    "upgradeInitialState" w1.

(** Lines 272-277. *)
Definition _onpopstate (e_state : HistoryState) (w : World)
    : World * completion :=
  let historyState := hs_or e_state (_initialHistoryState (router w)) in
  match _handleHistoryState historyState false "historyPopState" w with
  | (w1, Return _) => (w1, Return None)
  | (w1, Throw e) => (w1, Throw e)
  end.

End Router.

(** ** Runs of the router *)

Inductive action :=
| EnterStates (stateList : StateList) (pushHistory : option bool)
| QueueEnterStates (stateList : StateList) (pushHistory : option bool)
| ReplaceStateList (stateList : StateList)
| UpgradeInitialState
| AttachPopStateListener
| PopState (e_state : HistoryState)     (* the host fires popstate *)
| ControllerSettles (o : outcome).      (* the front controller is done *)

Definition step (m : URLStateMap) (a : action) (w : World) : World :=
  match a with
  | EnterStates sl ph => fst (enterStates sl ph w)
  | QueueEnterStates sl ph => fst (queueEnterStates sl ph w)
  | ReplaceStateList sl => fst (replaceStateList m sl w)
  | UpgradeInitialState => fst (upgradeInitialState m w)
  | AttachPopStateListener => fst (attachPopStateListener w)
  | PopState s =>
      if popstateListener (window (router w))
      then fst (_onpopstate m s w) else w
  | ControllerSettles o => settle m o w
  end.

Definition run (m : URLStateMap) (l : list action) (w : World) : World :=
  fold_left (fun w a => step m a w) l w.

(** The events that [w'] has seen after [w]. *)
Definition since (w w' : World) : list event :=
  skipn (length (trace w)) (trace w').

Definition isCall (e : event) : bool :=
  match e with FrontControllerState _ _ => true | _ => false end.

Definition isWrite (e : event) : bool :=
  match e with PushState _ _ | ReplaceState _ _ => true | _ => false end.

Definition isEmit (e : event) : bool :=
  match e with Emit _ _ _ _ _ _ => true | _ => false end.


(** The promise handed to whoever asked for the transition. *)
Definition outcomeFuture (t : Transition) : option pid :=
  match t_then t with
  | DoQueuedTransitionK _ _ _ rr => rr
  | _ => Some (t_promise t)
  end.

(** A codec and a window in the manner of the test suite. *)
Definition testMap : URLStateMap :=
  {| toURL := fun sl =>
       match sl with
       | [s] => if String.eqb s "foo" then inl "/foo/bar"
                else if String.eqb s "bar" then inl "/bar"
                else if String.eqb s "baz" then inl "/qwerty"
                else inr "Should not occur in this test case"
       | _ => inr "Should not occur in this test case"
       end;
     fromURL := fun u =>
       if String.eqb u "/foo/bar" then inl ["foo"]
       else if String.eqb u "/bar" then inl ["bar"]
       else if String.eqb u "/qwerty" then inl ["baz"]
       else inr "Should not occur in this test case" |}.

Definition windowStub : Window :=
  {| location := "/foo/bar"; history_state := HNull;
     popstateListener := false |}.

(** ** Vocabulary for the statements *)


(** The url that a chain carries along instead of asking the codec. *)
Definition pinned (k : continuation) : option url :=
  match k with
  | EnterStatesK _ _ => None
  | HandleHistoryStateK _ u => Some u
  | DoQueuedTransitionK _ fh _ _ => fh
  end.

(** Whether a chain that writes history pushes or replaces. *)
Definition pushes (k : continuation) : bool :=
  match k with
  | EnterStatesK _ ph => ph
  | HandleHistoryStateK _ _ => false
  | DoQueuedTransitionK _ _ ph _ => ph
  end.

(** The list that the [then] handler of [k] stores in [currentStateList]
    when it runs on router [r]. *)
Definition entered (k : continuation) (r : Router) : StateList :=
  match k with
  | HandleHistoryStateK sl _ => sl
  | _ => replaceOr r (k_stateList k)
  end.

(** How a transition ends: with the error of the front controller, with the
    error of the codec when the url of [cur] has to be derived, or well. *)
Definition transitionOutcome (m : URLStateMap) (cur : StateList)
    (pin : option url) (o : outcome) : outcome :=
  match o, pin with
  | Rejected e, _ => Rejected e
  | Fulfilled, Some _ => Fulfilled
  | Fulfilled, None =>
      match toURL m cur with
      | inl _ => Fulfilled
      | inr e => Rejected e
      end
  end.

(** The events of the [then] handler of [k], run on router [r] after the
    front controller settled with [o]. *)
Definition handlerEvents (m : URLStateMap) (k : continuation) (o : outcome)
    (r : Router) : list event :=
  match o with
  | Rejected _ => []
  | Fulfilled =>
      let cur := entered k r in
      let complete u :=
        Emit "transitionComplete" (k_stateList k) u None (Some cur) (pending r) in
      match pinned k with
      | Some u => [complete u]
      | None =>
          match toURL m cur with
          | inl u => [if pushes k then PushState (HOwn u) u
                      else ReplaceState (HOwn u) u;
                      complete u]
          | inr _ => []
          end
      end
  end.

(** The state in which [finally] calls [_doQueuedTransition]. *)
Definition cleared (k : continuation) (w : World) : World :=
  match k with
  | HandleHistoryStateK _ _ => on_router (set_pendingTransitionPromise None) w
  | _ => on_router (fun r => set_pendingReplace None
                               (set_pendingTransitionPromise None r)) w
  end.

(** The call of the front controller that empties queue [q]. *)
Definition drained (q : Queue) : list event :=
  if hasEntry q
  then [FrontControllerState
          (match q_stateList q with Some sl => sl | None => [] end)
          (Some (upgrade q))]
  else [].

(** The promises settled at the end of the chain of [t]. *)
Definition settlements (t : Transition) (o : outcome) : list event :=
  match t_then t with
  | DoQueuedTransitionK _ _ _ (Some q) =>
      [Settled q o; Settled (t_promise t) Fulfilled]
  | DoQueuedTransitionK _ _ _ None => [Settled (t_promise t) Fulfilled]
  | _ => [Settled (t_promise t) o]
  end.

(** Every router-owned action but the settlement of the front controller. *)
Definition isCallerAction (a : action) : bool :=
  match a with
  | ControllerSettles _ => false
  | _ => true
  end.

(** No event of [l] writes to the history stack. *)
Definition noWrite (l : list event) : Prop :=
  forallb (fun e => negb (isWrite e)) l = true.

(** No event of [l] is an emitted notification. *)
Definition noEmit (l : list event) : Prop :=
  forallb (fun e => negb (isEmit e)) l = true.

(** Chains built by [_handleHistoryState] itself. *)
Definition viaHandleHistoryState (k : continuation) : bool :=
  match k with
  | HandleHistoryStateK _ _ => true
  | _ => false
  end.

(** The effective record of a popstate event in the words of the
    specification: the record of the event if it is not null, otherwise the
    captured initial record.  The source computes [hs_or] instead. *)
Definition effectiveRecord_spec (e_state initial : HistoryState)
    : HistoryState :=
  match e_state with
  | HNull => initial
  | _ => e_state
  end.

(** The record that [_saveStateAsInitial] reads from the host. *)
Definition hostRecord (x : Window) : HistoryState :=
  if hasRouterUrl (history_state x) then history_state x
  else HOwn (location x).

(** The router is pending exactly while the front controller works on a
    transition, and [_pendingTransitionPromise] is the promise of that
    transition. *)
Definition consistent (w : World) : Prop :=
  match inflight w with
  | Some t => _pendingTransitionPromise (router w) = Some (t_promise t)
  | None => _pendingTransitionPromise (router w) = None
  end.

(** No event of [l] calls the front controller. *)
Definition noCall (l : list event) : Prop :=
  forallb (fun e => negb (isCall e)) l = true.

(** The url that [_saveStateAsInitial] settles on: that of [history.state]
    if it is a record of the router, else the location. *)
Definition hostUrl (x : Window) : url :=
  match history_state x with
  | HOwn u => u
  | _ => location x
  end.

(** The front controller answers a call by settling its promise. *)
Definition isAnswer (e : event) : bool :=
  match e with FrontControllerSettled _ => true | _ => false end.

(** Reads a trace as a conversation with the front controller: [open] tells
    whether a call awaits its answer.  The result is [None] if a call is
    made while one is open, or an answer arrives when none is open. *)
Fixpoint alternate (open : bool) (l : list event) : option bool :=
  match l with
  | [] => Some open
  | FrontControllerState _ _ :: l' =>
      if open then None else alternate true l'
  | FrontControllerSettled _ :: l' =>
      if open then alternate false l' else None
  | _ :: l' => alternate open l'
  end.

(** The captured initial record is null or a record of the router, and it
    is a record of the router once the popstate listener is attached. *)
Definition initial_ok (w : World) : Prop :=
  (_initialHistoryState (router w) = HNull \/
   hasRouterUrl (_initialHistoryState (router w)) = true) /\
  (popstateListener (window (router w)) = true ->
   hasRouterUrl (_initialHistoryState (router w)) = true).

(** The queue is empty, or it holds a complete entry while the router is
    pending. *)
Definition queue_ok (w : World) : Prop :=
  _queue (router w) = emptyQueue \/
  (pending (router w) = true /\
   exists sl fh upg ph p,
     _queue (router w) =
       {| hasEntry := true; q_stateList := Some sl; fromHistory := fh;
          upgrade := upg; push := ph; promise := Some p |}).

(** Calls of the front controller and its answers alternate in the trace,
    and a call is open exactly while the router is pending. *)
Definition serial (w : World) : Prop :=
  alternate false (trace w) = Some (pending (router w)).

(** ** Basic facts about the handlers *)

Lemma pushHistoryState_ok (m : URLStateMap) (sl : StateList) (b : bool)
    (w : World) (u : url) :
  toURL m sl = inl u ->
  _pushHistoryState m sl b w =
    (log (if b then PushState (HOwn u) u else ReplaceState (HOwn u) u)
       (on_router (fun r => set_window (host_write (HOwn u) u (window r)) r) w),
     inl u).
Proof. intros H. unfold _pushHistoryState. now rewrite H. Qed.

Lemma pushHistoryState_throws (m : URLStateMap) (sl : StateList) (b : bool)
    (w : World) (e : error) :
  toURL m sl = inr e -> _pushHistoryState m sl b w = (w, inr e).
Proof. intros H. unfold _pushHistoryState. now rewrite H. Qed.

(** Case analysis on the codec inside a [then] handler. *)
Ltac codec_cases m cur :=
  let E := fresh "E" in
  destruct (toURL m cur) eqn:E;
  [ rewrite (pushHistoryState_ok _ _ _ _ _ E)
  | rewrite (pushHistoryState_throws _ _ _ _ _ E) ]; simpl; try rewrite E.

Lemma on_settled_trace (m : URLStateMap) (k : continuation) (o : outcome)
    (w : World) :
  trace (fst (on_settled m k o w)) =
  trace w ++ handlerEvents m k o (router w).
Proof.
  destruct o as [|e]; simpl; [|now rewrite app_nil_r].
  destruct k as [sl ph | sl u | sl [u|] ph rr]; simpl; try reflexivity;
    codec_cases m (replaceOr (router w) sl);
    rewrite <- ?app_assoc, ?app_nil_r; reflexivity.
Qed.

Lemma on_settled_outcome (m : URLStateMap) (k : continuation) (o : outcome)
    (w : World) :
  snd (on_settled m k o w) =
  transitionOutcome m (entered k (router w)) (pinned k) o.
Proof.
  destruct o as [|e]; [|reflexivity].
  destruct k as [sl ph | sl u | sl [u|] ph rr]; simpl; try reflexivity;
    codec_cases m (replaceOr (router w) sl); reflexivity.
Qed.

Lemma on_settled_control (m : URLStateMap) (k : continuation) (o : outcome)
    (w : World) :
  let w' := fst (on_settled m k o w) in
  inflight w' = inflight w /\ fresh w' = fresh w /\
  _queue (router w') = _queue (router w) /\
  _pendingTransitionPromise (router w') = _pendingTransitionPromise (router w) /\
  _pendingReplace (router w') = _pendingReplace (router w) /\
  _initialHistoryState (router w') = _initialHistoryState (router w).
Proof.
  destruct o as [|e]; simpl; [|intuition reflexivity].
  destruct k as [sl ph | sl u | sl [u|] ph rr]; simpl;
    try (intuition reflexivity);
    codec_cases m (replaceOr (router w) sl); intuition reflexivity.
Qed.

Lemma on_settled_current (m : URLStateMap) (k : continuation) (o : outcome)
    (w : World) :
  currentStateList (router (fst (on_settled m k o w))) =
  match o with
  | Fulfilled => Some (entered k (router w))
  | Rejected _ => currentStateList (router w)
  end.
Proof.
  destruct o as [|e]; simpl; [|reflexivity].
  destruct k as [sl ph | sl u | sl [u|] ph rr]; simpl; try reflexivity;
    codec_cases m (replaceOr (router w) sl); reflexivity.
Qed.

Lemma on_settled_window (m : URLStateMap) (k : continuation) (o : outcome)
    (w : World) :
  window (router (fst (on_settled m k o w))) =
  match o, pinned k with
  | Fulfilled, None =>
      match toURL m (entered k (router w)) with
      | inl u => host_write (HOwn u) u (window (router w))
      | inr _ => window (router w)
      end
  | _, _ => window (router w)
  end.
Proof.
  destruct o as [|e]; simpl; [|now destruct (pinned k)].
  destruct k as [sl ph | sl u | sl [u|] ph rr]; simpl; try reflexivity;
    codec_cases m (replaceOr (router w) sl); reflexivity.
Qed.

Lemma doQueued_empty (w : World) :
  hasEntry (_queue (router w)) = false -> _doQueuedTransition w = w.
Proof. intros H. unfold _doQueuedTransition. now rewrite H. Qed.

Lemma doQueued_entry (w : World) :
  hasEntry (_queue (router w)) = true ->
  _doQueuedTransition w =
    let q := _queue (router w) in
    let sl := match q_stateList q with Some sl => sl | None => [] end in
    {| router := set_pendingTransitionPromise (Some (fresh w))
                   (set_queue emptyQueue (router w));
       inflight :=
         Some {| t_then := DoQueuedTransitionK sl (fromHistory q) (push q)
                             (promise q);
                 t_promise := fresh w |};
       fresh := S (fresh w);
       trace := trace w ++ [FrontControllerState sl (Some (upgrade q))] |}.
Proof.
  intros H1. unfold _doQueuedTransition. rewrite H1. reflexivity.
Qed.

Lemma doQueued_trace (w : World) :
  trace (_doQueuedTransition w) = trace w ++ drained (_queue (router w)).
Proof.
  unfold drained. destruct (hasEntry (_queue (router w))) eqn:E.
  - now rewrite (doQueued_entry w E).
  - now rewrite (doQueued_empty w E), app_nil_r.
Qed.

Lemma doQueued_router (w : World) :
  window (router (_doQueuedTransition w)) = window (router w) /\
  currentStateList (router (_doQueuedTransition w)) = currentStateList (router w) /\
  _pendingReplace (router (_doQueuedTransition w)) = _pendingReplace (router w) /\
  _initialHistoryState (router (_doQueuedTransition w)) =
    _initialHistoryState (router w).
Proof.
  destruct (hasEntry (_queue (router w))) eqn:E.
  - rewrite (doQueued_entry w E). simpl. intuition reflexivity.
  - rewrite (doQueued_empty w E). intuition reflexivity.
Qed.

Lemma on_finally_cleared (k : continuation) (w : World) :
  on_finally k w = _doQueuedTransition (cleared k w).
Proof. destruct k; reflexivity. Qed.

Lemma cleared_control (k : continuation) (w : World) :
  trace (cleared k w) = trace w /\ inflight (cleared k w) = inflight w /\
  fresh (cleared k w) = fresh w /\
  _queue (router (cleared k w)) = _queue (router w) /\
  window (router (cleared k w)) = window (router w) /\
  currentStateList (router (cleared k w)) = currentStateList (router w) /\
  _initialHistoryState (router (cleared k w)) = _initialHistoryState (router w) /\
  _pendingTransitionPromise (router (cleared k w)) = None.
Proof. destruct k; simpl; intuition reflexivity. Qed.

Lemma on_return_control (t : Transition) (o : outcome) (w : World) :
  router (on_return t o w) = router w /\
  inflight (on_return t o w) = inflight w /\
  fresh (on_return t o w) = fresh w /\
  trace (on_return t o w) = trace w ++ settlements t o.
Proof.
  unfold on_return, settlements.
  destruct (t_then t) as [sl ph | sl u | sl fh ph [q|]]; simpl;
    rewrite <- ?app_assoc; intuition reflexivity.
Qed.

Lemma settle_unfold (m : URLStateMap) (o : outcome) (w : World)
    (t : Transition) :
  inflight w = Some t ->
  settle m o w =
    let x := on_settled m (t_then t) o
               (log (FrontControllerSettled o) (set_inflight None w)) in
    on_return t (snd x) (_doQueuedTransition (cleared (t_then t) (fst x))).
Proof.
  intros H. unfold settle. rewrite H.
  destruct (on_settled m (t_then t) o _) as [w1 o1]. simpl.
  now rewrite on_finally_cleared.
Qed.

(** The events of one settlement, in order: the front controller settles,
    the [then] handler runs, [finally] empties the queue, and the promises of
    the chain settle. *)
Lemma settle_trace (m : URLStateMap) (o : outcome) (w : World)
    (t : Transition) :
  inflight w = Some t ->
  trace (settle m o w) =
    trace w ++ FrontControllerSettled o ::
    handlerEvents m (t_then t) o (router w) ++
    drained (_queue (router w)) ++
    settlements t (transitionOutcome m (entered (t_then t) (router w))
                     (pinned (t_then t)) o).
Proof.
  intros H. rewrite (settle_unfold m o w t H). cbv zeta.
  set (w0 := log (FrontControllerSettled o) (set_inflight None w)).
  destruct (on_return_control t (snd (on_settled m (t_then t) o w0))
              (_doQueuedTransition
                 (cleared (t_then t) (fst (on_settled m (t_then t) o w0)))))
    as (_ & _ & _ & ->).
  rewrite doQueued_trace.
  destruct (cleared_control (t_then t) (fst (on_settled m (t_then t) o w0)))
    as (-> & _ & _ & -> & _).
  destruct (on_settled_control m (t_then t) o w0) as (_ & _ & -> & _).
  rewrite on_settled_trace, on_settled_outcome.
  unfold w0. simpl. rewrite <- !app_assoc. reflexivity.
Qed.

Lemma settle_current (m : URLStateMap) (o : outcome) (w : World)
    (t : Transition) :
  inflight w = Some t ->
  currentStateList (router (settle m o w)) =
  match o with
  | Fulfilled => Some (entered (t_then t) (router w))
  | Rejected _ => currentStateList (router w)
  end.
Proof.
  intros H. rewrite (settle_unfold m o w t H). cbv zeta.
  set (w0 := log (FrontControllerSettled o) (set_inflight None w)).
  match goal with |- context [on_return t ?a ?b] =>
    destruct (on_return_control t a b) as (-> & _) end.
  match goal with |- context [_doQueuedTransition ?b] =>
    destruct (doQueued_router b) as (_ & -> & _) end.
  match goal with |- context [cleared ?a ?b] =>
    destruct (cleared_control a b) as (_ & _ & _ & _ & _ & -> & _) end.
  now rewrite on_settled_current.
Qed.

Lemma settle_window (m : URLStateMap) (o : outcome) (w : World)
    (t : Transition) :
  inflight w = Some t ->
  window (router (settle m o w)) =
  match o, pinned (t_then t) with
  | Fulfilled, None =>
      match toURL m (entered (t_then t) (router w)) with
      | inl u => host_write (HOwn u) u (window (router w))
      | inr _ => window (router w)
      end
  | _, _ => window (router w)
  end.
Proof.
  intros H. rewrite (settle_unfold m o w t H). cbv zeta.
  set (w0 := log (FrontControllerSettled o) (set_inflight None w)).
  match goal with |- context [on_return t ?a ?b] =>
    destruct (on_return_control t a b) as (-> & _) end.
  match goal with |- context [_doQueuedTransition ?b] =>
    destruct (doQueued_router b) as (-> & _) end.
  match goal with |- context [cleared ?a ?b] =>
    destruct (cleared_control a b) as (_ & _ & _ & _ & -> & _) end.
  now rewrite on_settled_window.
Qed.

(** After a settlement the router is pending exactly when the queue held an
    entry, and then for the transition taken from the queue. *)
Lemma settle_next (m : URLStateMap) (o : outcome) (w : World)
    (t : Transition) :
  inflight w = Some t ->
  let q := _queue (router w) in
  let w' := settle m o w in
  if hasEntry q then
    inflight w' =
      Some {| t_then := DoQueuedTransitionK
                          (match q_stateList q with Some sl => sl | None => [] end)
                          (fromHistory q) (push q) (promise q);
              t_promise := fresh w |} /\
    _pendingTransitionPromise (router w') = Some (fresh w) /\
    _queue (router w') = emptyQueue
  else
    inflight w' = None /\ _pendingTransitionPromise (router w') = None /\
    _queue (router w') = q.
Proof.
  intros H q w'. unfold w'. rewrite (settle_unfold m o w t H). cbv zeta.
  set (w0 := log (FrontControllerSettled o) (set_inflight None w)).
  match goal with |- context [on_return t ?a ?b] =>
    destruct (on_return_control t a b) as (-> & -> & _) end.
  set (w1 := fst (on_settled m (t_then t) o w0)).
  destruct (cleared_control (t_then t) w1) as (_ & Ci & Cf & Cq & _ & _ & _ & Cp).
  destruct (on_settled_control m (t_then t) o w0) as (Si & Sf & Sq & _).
  fold w1 in Si, Sf, Sq.
  assert (Hq : _queue (router (cleared (t_then t) w1)) = q).
  { rewrite Cq, Sq. reflexivity. }
  destruct (hasEntry q) eqn:E.
  - rewrite (doQueued_entry (cleared (t_then t) w1)) by (rewrite Hq; exact E).
    cbv zeta. rewrite Hq, Cf, Sf. simpl. intuition reflexivity.
  - rewrite (doQueued_empty (cleared (t_then t) w1)) by (rewrite Hq; exact E).
    rewrite Ci, Si, Cp, Hq. simpl. intuition reflexivity.
Qed.

Lemma settle_pendingReplace (m : URLStateMap) (o : outcome) (w : World)
    (t : Transition) :
  inflight w = Some t ->
  _pendingReplace (router (settle m o w)) =
  match t_then t with
  | HandleHistoryStateK _ _ => _pendingReplace (router w)
  | _ => None
  end.
Proof.
  intros H. rewrite (settle_unfold m o w t H). cbv zeta.
  set (w0 := log (FrontControllerSettled o) (set_inflight None w)).
  match goal with |- context [on_return t ?a ?b] =>
    destruct (on_return_control t a b) as (-> & _) end.
  match goal with |- context [_doQueuedTransition ?b] =>
    destruct (doQueued_router b) as (_ & _ & -> & _) end.
  destruct (on_settled_control m (t_then t) o w0) as (_ & _ & _ & _ & Sr & _).
  destruct (t_then t); simpl; try reflexivity.
  rewrite Sr. reflexivity.
Qed.

Lemma addToQueue_spec (sl : StateList) (fh : option url) (upg ph : bool)
    (w : World) :
  exists p w',
    _addToQueue sl fh upg ph w = (w', p) /\
    _queue (router w') =
      {| hasEntry := true; q_stateList := Some sl; fromHistory := fh;
         upgrade := upg; push := ph; promise := Some p |} /\
    (forall q, promise (_queue (router w)) = Some q -> p = q) /\
    trace w' = trace w /\ inflight w' = inflight w /\
    window (router w') = window (router w) /\
    currentStateList (router w') = currentStateList (router w) /\
    _pendingTransitionPromise (router w') = _pendingTransitionPromise (router w) /\
    _pendingReplace (router w') = _pendingReplace (router w) /\
    _initialHistoryState (router w') = _initialHistoryState (router w).
Proof.
  unfold _addToQueue.
  destruct (promise (_queue (router w))) as [q|] eqn:E.
  - eexists. eexists. split; [reflexivity|]. simpl.
    repeat split. intros q' Hq. congruence.
  - eexists. eexists. split; [reflexivity|]. simpl.
    repeat split. intros q' Hq. discriminate.
Qed.

Lemma queueEnterStates_pending (sl : StateList) (ph : option bool) (w : World) :
  pending (router w) = true ->
  queueEnterStates sl ph w =
    (fst (_addToQueue sl None false (default_true ph) w),
     Return (Some (snd (_addToQueue sl None false (default_true ph) w)))).
Proof.
  intros H. unfold queueEnterStates. rewrite H.
  now destruct (_addToQueue sl None false (default_true ph) w).
Qed.



Lemma pending_of_promise (r : Router) (p : pid) :
  _pendingTransitionPromise r = Some p -> pending r = true.
Proof. intros H. unfold pending. now rewrite H. Qed.

Lemma pending_same (r r' : Router) :
  _pendingTransitionPromise r' = _pendingTransitionPromise r ->
  pending r' = pending r.
Proof. intros H. unfold pending. now rewrite H. Qed.

Lemma enterStates_pending (sl : StateList) (ph : option bool) (w : World) :
  pending (router w) = true ->
  enterStates sl ph w =
    ({| router := router w; inflight := inflight w; fresh := S (fresh w);
        trace := trace w ++ [Settled (fresh w) (Rejected pendingError)] |},
     Return (Some (fresh w))).
Proof.
  intros H. unfold enterStates. rewrite H. reflexivity.
Qed.

(** ** Scenarios of the test suite *)

(** 'should overwrite the queue if multiple transitions are queued': the
    front controller enters foo and then bar, never baz. *)
Example scenario_overwrite_queue :
  trace (run testMap [QueueEnterStates ["foo"] None;
                      QueueEnterStates ["baz"] None;
                      QueueEnterStates ["bar"] None;
                      ControllerSettles Fulfilled; ControllerSettles Fulfilled]
           (newRouter windowStub)) =
    [FrontControllerState ["foo"] None;
     FrontControllerSettled Fulfilled;
     PushState (HOwn "/foo/bar") "/foo/bar";
     Emit "transitionComplete" ["foo"] "/foo/bar" None (Some ["foo"]) true;
     FrontControllerState ["bar"] (Some false);
     Settled 0 Fulfilled;
     FrontControllerSettled Fulfilled;
     PushState (HOwn "/bar") "/bar";
     Emit "transitionComplete" ["bar"] "/bar" None (Some ["bar"]) true;
     Settled 1 Fulfilled;
     Settled 2 Fulfilled].
Proof. reflexivity. Qed.

(** 'should wait for the pending transition to complete (and use pushState
    instead)': the replacement is pushed when foo has been entered. *)
Example scenario_replace_waits :
  let w := run testMap [EnterStates ["foo"] None; ReplaceStateList ["bar"];
                        ControllerSettles Fulfilled] (newRouter windowStub) in
  currentStateList (router w) = Some ["bar"] /\
  trace w =
    [FrontControllerState ["foo"] None;
     FrontControllerSettled Fulfilled;
     PushState (HOwn "/bar") "/bar";
     Emit "transitionComplete" ["foo"] "/bar" None (Some ["bar"]) true;
     Settled 0 Fulfilled].
Proof. split; reflexivity. Qed.

(** 'upgradeInitialState should queue if a transition is in progress': the
    upgrade of the location '/qwerty' waits for foo and writes no history. *)
Example scenario_upgrade_queues :
  trace (run testMap [EnterStates ["foo"] None; UpgradeInitialState;
                      ControllerSettles Fulfilled; ControllerSettles Fulfilled]
           (newRouter {| location := "/qwerty"; history_state := HNull;
                         popstateListener := false |})) =
    [FrontControllerState ["foo"] None;
     Emit "upgradeInitialState" ["baz"] "/qwerty" (Some 1) None true;
     FrontControllerSettled Fulfilled;
     PushState (HOwn "/foo/bar") "/foo/bar";
     Emit "transitionComplete" ["foo"] "/foo/bar" None (Some ["foo"]) true;
     FrontControllerState ["baz"] (Some true);
     Settled 0 Fulfilled;
     FrontControllerSettled Fulfilled;
     Emit "transitionComplete" ["baz"] "/qwerty" None (Some ["baz"]) true;
     Settled 1 Fulfilled;
     Settled 2 Fulfilled].
Proof. reflexivity. Qed.

(** ** One transition at a time *)

Lemma startTransition_consistent (sl : StateList) (upg : option bool)
    (k : continuation) (w : World) :
  consistent (fst (startTransition sl upg k w)).
Proof. reflexivity. Qed.

Lemma addToQueue_consistent (sl : StateList) (fh : option url) (upg ph : bool)
    (w : World) :
  consistent w -> consistent (fst (_addToQueue sl fh upg ph w)).
Proof.
  unfold consistent.
  destruct (addToQueue_spec sl fh upg ph w)
    as (p & w' & E & _ & _ & _ & I & _ & _ & P & _).
  rewrite E. simpl. now rewrite I, P.
Qed.

Lemma handleHistoryState_consistent (m : URLStateMap) (h : HistoryState)
    (upg : bool) (ev : string) (w : World) :
  consistent w -> consistent (fst (_handleHistoryState m h upg ev w)).
Proof.
  intros H. unfold _handleHistoryState.
  destruct h as [| k | k | u]; try exact H.
  destruct (fromURL m u) as [sl|e]; [|exact H].
  destruct (pending (router w)).
  - pose proof (addToQueue_consistent sl (Some u) upg false w H) as H'.
    destruct (_addToQueue sl (Some u) upg false w) as [w' p]. exact H'.
  - reflexivity.
Qed.

Lemma step_consistent (m : URLStateMap) (a : action) (w : World) :
  consistent w -> consistent (step m a w).
Proof.
  intros H. destruct a as [sl ph | sl ph | sl | | | s | o]; simpl.
  - unfold enterStates. destruct (pending (router w)); [exact H|reflexivity].
  - unfold queueEnterStates, enterStates.
    destruct (pending (router w)).
    + pose proof (addToQueue_consistent sl None false (default_true ph) w H)
        as H'.
      destruct (_addToQueue sl None false (default_true ph) w) as [w' p].
      exact H'.
    + reflexivity.
  - unfold replaceStateList, _pushHistoryState.
    destruct (pending (router w)); [exact H|]. simpl.
    destruct (toURL m sl); exact H.
  - unfold upgradeInitialState. apply handleHistoryState_consistent.
    unfold _saveStateAsInitial.
    destruct (hasRouterUrl (history_state (window (router w)))); exact H.
  - unfold attachPopStateListener. simpl.
    destruct (truthy (_initialHistoryState (router w))); [exact H|].
    unfold _saveStateAsInitial. simpl.
    destruct (hasRouterUrl (history_state (window (router w)))); exact H.
  - destruct (popstateListener (window (router w))); [|exact H].
    unfold _onpopstate.
    pose proof (handleHistoryState_consistent m
                  (hs_or s (_initialHistoryState (router w))) false
                  "historyPopState" w H) as H'.
    destruct (_handleHistoryState m _ false "historyPopState" w)
      as [w1 [r|e]]; exact H'.
  - destruct (inflight w) as [t|] eqn:Hin.
    + pose proof (settle_next m o w t Hin) as N. cbv zeta in N.
      unfold consistent.
      destruct (hasEntry (_queue (router w))).
      * destruct N as (-> & -> & _). reflexivity.
      * destruct N as (-> & -> & _). reflexivity.
    + unfold settle. rewrite Hin. exact H.
Qed.

(** Every world that a run reaches from a new router is consistent: there
    is a transition in flight exactly when the router is pending. *)
Lemma run_consistent (m : URLStateMap) (l : list action) (w : World) :
  consistent w -> consistent (run m l w).
Proof.
  revert w. induction l as [|a l IH]; intros w H; simpl.
  - exact H.
  - apply IH. now apply step_consistent.
Qed.

Lemma newRouter_consistent (x : Window) : consistent (newRouter x).
Proof. reflexivity. Qed.

(** ** Mutual exclusion of [enterStates] *)

(** C3. A call of [enterStates] while a transition is pending returns a
    promise that is rejected at once with the error 'A previous state
    transition is still pending'.  Nothing else happens: the router (its
    [currentStateList], window and history, queue and pending promise) and
    the transition in flight are as before, and the only event is the
    rejection, so the front controller is not called. *)
Theorem enterStates_rejects_while_pending (sl : StateList) (ph : option bool)
    (w : World) :
  pending (router w) = true ->
  exists (p : pid) (w' : World),
    enterStates sl ph w = (w', Return (Some p)) /\
    trace w' = trace w ++ [Settled p (Rejected pendingError)] /\
    router w' = router w /\ inflight w' = inflight w.
Proof.
  intros H. rewrite (enterStates_pending sl ph w H).
  eexists. eexists. split; [reflexivity|]. simpl. auto.
Qed.

Lemma enterStates_rejects_while_pending_witness :
  let w := run testMap [EnterStates ["foo"] None] (newRouter windowStub) in
  pending (router w) = true /\
  exists (p : pid) (w' : World),
    enterStates ["bar"] None w = (w', Return (Some p)) /\
    trace w' = trace w ++ [Settled p (Rejected pendingError)] /\
    router w' = router w /\ inflight w' = inflight w.
Proof.
  split; [reflexivity|].
  apply (enterStates_rejects_while_pending ["bar"] None
           (run testMap [EnterStates ["foo"] None] (newRouter windowStub))).
  reflexivity.
Defined.

(** ** The queue of one *)


Lemma noWrite_app (l1 l2 : list event) :
  noWrite l1 -> noWrite l2 -> noWrite (l1 ++ l2).
Proof.
  unfold noWrite. intros H1 H2. now rewrite forallb_app, H1, H2.
Qed.

Lemma noWrite_drained (q : Queue) : noWrite (drained q).
Proof. unfold noWrite, drained. now destruct (hasEntry q). Qed.

Lemma noWrite_settlements (t : Transition) (o : outcome) :
  noWrite (settlements t o).
Proof.
  unfold noWrite, settlements.
  destruct (t_then t) as [sl ph | sl u | sl fh ph [q|]]; reflexivity.
Qed.

Lemma noEmit_app (l1 l2 : list event) :
  noEmit l1 -> noEmit l2 -> noEmit (l1 ++ l2).
Proof.
  unfold noEmit. intros H1 H2. now rewrite forallb_app, H1, H2.
Qed.

Lemma noEmit_drained (q : Queue) : noEmit (drained q).
Proof. unfold noEmit, drained. now destruct (hasEntry q). Qed.

Lemma noEmit_settlements (t : Transition) (o : outcome) :
  noEmit (settlements t o).
Proof.
  unfold noEmit, settlements.
  destruct (t_then t) as [sl ph | sl u | sl fh ph [q|]]; reflexivity.
Qed.

Lemma noEmit_In (l : list event) (e : event) :
  noEmit l -> In e l -> isEmit e = false.
Proof.
  unfold noEmit. intros H Hin. rewrite forallb_forall in H.
  apply H in Hin. now destruct (isEmit e).
Qed.

Lemma In_settlements (t : Transition) (o : outcome) (p : pid) :
  outcomeFuture t = Some p -> In (Settled p o) (settlements t o).
Proof.
  unfold outcomeFuture, settlements.
  destruct (t_then t) as [sl ph | sl u | sl fh ph [q|]]; intros H;
    inversion H; subst; simpl; auto.
Qed.

(** While a transition is pending, whatever a caller or the host does
    leaves [currentStateList] and the transition in flight alone. *)
Lemma pending_step_keeps (m : URLStateMap) (a : action) (w : World) :
  pending (router w) = true -> isCallerAction a = true ->
  currentStateList (router (step m a w)) = currentStateList (router w) /\
  inflight (step m a w) = inflight w /\
  window (router (step m a w)) =
    match a with
    | AttachPopStateListener => host_listen (window (router w))
    | _ => window (router w)
    end.
Proof.
  intros Hp Ha. destruct a as [sl ph | sl ph | sl | | | s | o]; simpl.
  - rewrite (enterStates_pending sl ph w Hp). simpl. auto.
  - rewrite (queueEnterStates_pending sl ph w Hp). simpl.
    destruct (addToQueue_spec sl None false (default_true ph) w)
      as (p & w' & E & _ & _ & _ & I & W & C & _).
    rewrite E. simpl. auto.
  - unfold replaceStateList. rewrite Hp. simpl. auto.
  - unfold upgradeInitialState, _handleHistoryState.
    assert (Hs : pending (router (_saveStateAsInitial w)) = true).
    { unfold _saveStateAsInitial.
      destruct (hasRouterUrl _); simpl; exact Hp. }
    assert (Hk : currentStateList (router (_saveStateAsInitial w)) =
                 currentStateList (router w) /\
                 inflight (_saveStateAsInitial w) = inflight w /\
                 window (router (_saveStateAsInitial w)) = window (router w)).
    { unfold _saveStateAsInitial. destruct (hasRouterUrl _); simpl; auto. }
    destruct Hk as (K1 & K2 & K3).
    destruct (_initialHistoryState (router (_saveStateAsInitial w)))
      as [| k | k | u]; simpl; auto.
    destruct (fromURL m u) as [sl|e]; simpl; auto.
    rewrite Hs.
    destruct (addToQueue_spec sl (Some u) true false (_saveStateAsInitial w))
      as (p & w' & E & _ & _ & _ & I & W & C & _).
    rewrite E. simpl. rewrite I, W, C. auto.
  - unfold attachPopStateListener. simpl.
    destruct (truthy (_initialHistoryState (router w))); simpl; auto.
    unfold _saveStateAsInitial. simpl.
    destruct (hasRouterUrl _); simpl; auto.
  - destruct (popstateListener (window (router w))); auto.
    unfold _onpopstate, _handleHistoryState.
    destruct (hs_or s (_initialHistoryState (router w)))
      as [| k | k | u]; simpl; auto.
    destruct (fromURL m u) as [sl|e]; simpl; auto.
    rewrite Hp.
    destruct (addToQueue_spec sl (Some u) false false w)
      as (p & w' & E & _ & _ & _ & I & W & C & _).
    rewrite E. simpl. auto.
  - discriminate.
Qed.

(** ** Order of the history write *)

Lemma noCall_app (l1 l2 : list event) :
  noCall l1 -> noCall l2 -> noCall (l1 ++ l2).
Proof.
  unfold noCall. intros H1 H2. now rewrite forallb_app, H1, H2.
Qed.

Lemma saveStateAsInitial_keeps (w : World) :
  trace (_saveStateAsInitial w) = trace w /\
  inflight (_saveStateAsInitial w) = inflight w /\
  fresh (_saveStateAsInitial w) = fresh w /\
  window (router (_saveStateAsInitial w)) = window (router w) /\
  currentStateList (router (_saveStateAsInitial w)) =
    currentStateList (router w) /\
  _pendingTransitionPromise (router (_saveStateAsInitial w)) =
    _pendingTransitionPromise (router w) /\
  _pendingReplace (router (_saveStateAsInitial w)) =
    _pendingReplace (router w) /\
  _queue (router (_saveStateAsInitial w)) = _queue (router w).
Proof.
  unfold _saveStateAsInitial.
  destruct (hasRouterUrl (history_state (window (router w)))); simpl;
    intuition reflexivity.
Qed.

(** What [_handleHistoryState] does while a transition is pending. *)
Lemma handleHistoryState_pending (m : URLStateMap) (h : HistoryState)
    (upg : bool) (name : string) (w : World) :
  pending (router w) = true ->
  let w' := fst (_handleHistoryState m h upg name w) in
  (exists ev, trace w' = trace w ++ ev /\ noCall ev /\ noWrite ev) /\
  inflight w' = inflight w /\
  window (router w') = window (router w) /\
  currentStateList (router w') = currentStateList (router w) /\
  _pendingTransitionPromise (router w') = _pendingTransitionPromise (router w) /\
  _pendingReplace (router w') = _pendingReplace (router w).
Proof.
  intros Hp w'. unfold w', _handleHistoryState.
  destruct h as [| k | k | u]; simpl;
    try (split; [exists []; rewrite app_nil_r; repeat split|];
         intuition reflexivity).
  destruct (fromURL m u) as [sl|e]; simpl.
  - rewrite Hp.
    destruct (addToQueue_spec sl (Some u) upg false w)
      as (p & w1 & E & _ & _ & T & I & W & C & P & R & _).
    rewrite E. simpl. rewrite T.
    split; [eexists; split; [reflexivity|]; split; reflexivity|].
    auto.
  - split; [exists []; rewrite app_nil_r; repeat split|].
    intuition reflexivity.
Qed.

(** What a call or a popstate adds to the trace while a transition runs. *)
Lemma pending_step_trace (m : URLStateMap) (a : action) (w : World) :
  pending (router w) = true -> isCallerAction a = true ->
  exists ev : list event,
    trace (step m a w) = trace w ++ ev /\ noCall ev /\ noWrite ev.
Proof.
  intros Hp Ha. destruct a as [sl ph | sl ph | sl | | | s | o]; simpl.
  - rewrite (enterStates_pending sl ph w Hp). simpl.
    eexists. split; [reflexivity|]. split; reflexivity.
  - rewrite (queueEnterStates_pending sl ph w Hp). simpl.
    destruct (addToQueue_spec sl None false (default_true ph) w)
      as (p & w' & E & _ & _ & T & _).
    rewrite E. simpl. rewrite T.
    exists []. rewrite app_nil_r. repeat split.
  - unfold replaceStateList. rewrite Hp. simpl.
    exists []. rewrite app_nil_r. repeat split.
  - unfold upgradeInitialState.
    destruct (saveStateAsInitial_keeps w) as (T & _ & _ & _ & _ & P & _).
    assert (Hs : pending (router (_saveStateAsInitial w)) = true).
    { rewrite (pending_same _ _ P). exact Hp. }
    destruct (handleHistoryState_pending m
                (_initialHistoryState (router (_saveStateAsInitial w)))
                true "upgradeInitialState" (_saveStateAsInitial w) Hs)
      as ((ev & T' & Hc & Hw) & _).
    rewrite T', T. exists ev. auto.
  - unfold attachPopStateListener. simpl.
    destruct (truthy (_initialHistoryState (router w))); simpl.
    + eexists. split; [reflexivity|]. split; reflexivity.
    + unfold _saveStateAsInitial. simpl.
      destruct (hasRouterUrl (history_state (window (router w)))); simpl;
        eexists; (split; [reflexivity|]); split; reflexivity.
  - destruct (popstateListener (window (router w))).
    + unfold _onpopstate.
      destruct (handleHistoryState_pending m
                  (hs_or s (_initialHistoryState (router w))) false
                  "historyPopState" w Hp) as (Hev & _).
      destruct (_handleHistoryState m _ false "historyPopState" w)
        as [w1 [r|e]]; simpl in *; exact Hev.
    + exists []. rewrite app_nil_r. repeat split.
  - discriminate.
Qed.

(** What [_handleHistoryState] does when it starts a transition itself. *)
Lemma handleHistoryState_start (m : URLStateMap) (h : HistoryState)
    (upg : bool) (name : string) (w : World) (t0 : Transition) :
  inflight w = None ->
  inflight (fst (_handleHistoryState m h upg name w)) = Some t0 ->
  let w' := fst (_handleHistoryState m h upg name w) in
  currentStateList (router w') = currentStateList (router w) /\
  window (router w') = window (router w) /\
  exists ev : list event, trace w' = trace w ++ ev /\ noWrite ev.
Proof.
  intros Hn. unfold _handleHistoryState.
  destruct h as [| k | k | u]; simpl; try congruence.
  destruct (fromURL m u) as [sl|e]; simpl; [|congruence].
  destruct (pending (router w)).
  - destruct (addToQueue_spec sl (Some u) upg false w)
      as (p & w1 & E & _ & _ & _ & I & _).
    rewrite E. simpl. congruence.
  - simpl. intros _. split; [reflexivity|]. split; [reflexivity|].
    eexists. rewrite <- app_assoc. split; [reflexivity|]. reflexivity.
Qed.

(** How a call or a popstate starts a transition on a router that has none
    in flight: it writes nothing and leaves [currentStateList] and the
    window alone. *)
Lemma starting_step (m : URLStateMap) (a : action) (w : World)
    (t0 : Transition) :
  isCallerAction a = true -> inflight w = None ->
  inflight (step m a w) = Some t0 ->
  currentStateList (router (step m a w)) = currentStateList (router w) /\
  window (router (step m a w)) = window (router w) /\
  exists ev : list event, trace (step m a w) = trace w ++ ev /\ noWrite ev.
Proof.
  intros Ha Hn. destruct a as [sl ph | sl ph | sl | | | s | o]; simpl.
  - unfold enterStates. destruct (pending (router w)); simpl; [congruence|].
    intros _. split; [reflexivity|]. split; [reflexivity|].
    eexists. split; reflexivity.
  - unfold queueEnterStates, enterStates.
    destruct (pending (router w)); simpl.
    + destruct (addToQueue_spec sl None false (default_true ph) w)
        as (p & w1 & E & _ & _ & _ & I & _).
      rewrite E. simpl. congruence.
    + intros _. split; [reflexivity|]. split; [reflexivity|].
      eexists. split; reflexivity.
  - unfold replaceStateList, _pushHistoryState.
    destruct (pending (router w)); simpl; [congruence|].
    destruct (toURL m sl); simpl; congruence.
  - unfold upgradeInitialState.
    destruct (saveStateAsInitial_keeps w) as (T & I & _ & W & C & _).
    intros H.
    destruct (handleHistoryState_start m _ true "upgradeInitialState"
                (_saveStateAsInitial w) t0 (eq_trans I Hn) H)
      as (C' & W' & ev & T' & Hw).
    rewrite C', W', T', C, W, T. split; [reflexivity|].
    split; [reflexivity|]. exists ev. auto.
  - unfold attachPopStateListener. simpl.
    destruct (truthy (_initialHistoryState (router w))); simpl; [congruence|].
    unfold _saveStateAsInitial. simpl.
    destruct (hasRouterUrl (history_state (window (router w)))); simpl;
      congruence.
  - destruct (popstateListener (window (router w))); [|congruence].
    unfold _onpopstate. intros H.
    assert (H' : inflight (fst (_handleHistoryState m
                   (hs_or s (_initialHistoryState (router w))) false
                   "historyPopState" w)) = Some t0).
    { destruct (_handleHistoryState m _ false "historyPopState" w)
        as [w1 [r|e]]; exact H. }
    pose proof (handleHistoryState_start m _ false "historyPopState"
                  w t0 Hn H') as R.
    cbv zeta in R.
    destruct (_handleHistoryState m _ false "historyPopState" w)
      as [w1 [r|e]]; exact R.
  - discriminate.
Qed.

(** C2. Let a transition [t] be running.  When the front controller fulfils
    it, [currentStateList] becomes the entered list, and the events of the
    settlement are, in this order: the settlement of the front controller;
    for a transition without a pinned url whose list the codec encodes, the
    one history write (push or replace of the record of that url); the
    'transitionComplete' notification, which already reads the new
    [currentStateList]; and then events without any write, among them the
    fulfilment of the promise handed to the caller.  A transition with a
    pinned url writes nothing.  A transition that fails, by a rejection of
    the front controller or by the codec, writes nothing and leaves the
    window alone, and a rejection leaves [currentStateList] alone too.
    While the transition runs, no call and no popstate changes
    [currentStateList] or the transition in flight, or writes to the
    history.  And whatever call or popstate starts a transition writes
    nothing and leaves [currentStateList] and the window as they are, so
    that the write never comes before the front controller has settled. *)
Theorem history_write_ordering (m : URLStateMap) (w : World) (t : Transition)
    (o : outcome) :
  inflight w = Some t -> pending (router w) = true ->
  let w' := settle m o w in
  let cur := entered (t_then t) (router w) in
  let complete u :=
    Emit "transitionComplete" (k_stateList (t_then t)) u None (Some cur) true in
  (exists ev : list event,
     trace w' = trace w ++ ev /\
     match o with
     | Rejected _ =>
         noWrite ev /\ window (router w') = window (router w) /\
         currentStateList (router w') = currentStateList (router w)
     | Fulfilled =>
         currentStateList (router w') = Some cur /\
         match pinned (t_then t), toURL m cur with
         | Some u, _ =>
             window (router w') = window (router w) /\
             exists post : list event,
               ev = FrontControllerSettled Fulfilled :: complete u :: post /\
               noWrite post
         | None, inl u =>
             window (router w') = host_write (HOwn u) u (window (router w)) /\
             exists post : list event,
               ev = FrontControllerSettled Fulfilled ::
                    (if pushes (t_then t) then PushState (HOwn u) u
                     else ReplaceState (HOwn u) u) ::
                    complete u :: post /\
               noWrite post /\
               forall p, outcomeFuture t = Some p ->
                         In (Settled p Fulfilled) post
         | None, inr e =>
             noWrite ev /\ window (router w') = window (router w) /\
             forall p, outcomeFuture t = Some p ->
                       In (Settled p (Rejected e)) ev
         end
     end) /\
  (forall a : action,
     isCallerAction a = true ->
     currentStateList (router (step m a w)) = currentStateList (router w) /\
     inflight (step m a w) = inflight w /\
     exists ev : list event,
       trace (step m a w) = trace w ++ ev /\ noWrite ev) /\
  (forall (a : action) (w0 : World) (t0 : Transition),
     isCallerAction a = true -> inflight w0 = None ->
     inflight (step m a w0) = Some t0 ->
     currentStateList (router (step m a w0)) = currentStateList (router w0) /\
     window (router (step m a w0)) = window (router w0) /\
     exists ev : list event,
       trace (step m a w0) = trace w0 ++ ev /\ noWrite ev).
Proof.
  intros Hin Hp w' cur complete.
  pose proof (settle_trace m o w t Hin) as T.
  pose proof (settle_window m o w t Hin) as W.
  pose proof (settle_current m o w t Hin) as C.
  fold w' in T, W, C. fold cur in T, W, C.
  assert (Hd := noWrite_drained (_queue (router w))).
  assert (Htail : forall o1, noWrite (drained (_queue (router w)) ++
                                      settlements t o1)).
  { intros o1. apply noWrite_app; [exact Hd | apply noWrite_settlements]. }
  split; [|split].
  - eexists. split; [exact T|].
    unfold handlerEvents, transitionOutcome. fold cur. rewrite Hp.
    destruct o as [|e].
    + split; [exact C|].
      destruct (pinned (t_then t)) as [u|].
      * split; [exact W|]. eexists. split; [reflexivity|]. apply Htail.
      * destruct (toURL m cur) as [u|e].
        -- split; [exact W|]. eexists. split; [reflexivity|].
           split; [apply Htail|].
           intros p Hf. apply in_or_app. right. now apply In_settlements.
        -- split; [|split; [exact W|]].
           ++ apply (noWrite_app [_]); [reflexivity | apply Htail].
           ++ intros p Hf. right. simpl. apply in_or_app. right.
              now apply In_settlements.
    + split; [|split; [exact W | exact C]].
      apply (noWrite_app [_]); [reflexivity | apply Htail].
  - intros a Ha.
    destruct (pending_step_keeps m a w Hp Ha) as (K1 & K2 & _).
    destruct (pending_step_trace m a w Hp Ha) as (ev & E & _ & Hw).
    split; [exact K1|]. split; [exact K2|]. exists ev. auto.
  - intros a w0 t0 Ha Hn Hs. exact (starting_step m a w0 t0 Ha Hn Hs).
Qed.

Lemma history_write_ordering_witness :
  let w := run testMap [EnterStates ["foo"] None] (newRouter windowStub) in
  let t := {| t_then := EnterStatesK ["foo"] true; t_promise := 0 |} in
  let w' := settle testMap Fulfilled w in
  inflight w = Some t /\ pending (router w) = true /\
  currentStateList (router w') = Some ["foo"] /\
  exists post : list event,
    trace w' =
      trace w ++
      FrontControllerSettled Fulfilled ::
      PushState (HOwn "/foo/bar") "/foo/bar" ::
      Emit "transitionComplete" ["foo"] "/foo/bar" None (Some ["foo"]) true ::
      post /\
    noWrite post /\ In (Settled 0 Fulfilled) post.
Proof.
  intros w t w'.
  split; [reflexivity|]. split; [reflexivity|].
  destruct (history_write_ordering testMap w t Fulfilled eq_refl eq_refl)
    as ((ev & H1 & H2) & _ & _).
  simpl in H2. destruct H2 as (H2 & _ & post & H3 & H4 & H5).
  split; [exact H2|]. exists post.
  split; [rewrite H3 in H1; exact H1|]. split; [exact H4|].
  apply H5. reflexivity.
Defined.


(** ** Failure of the front controller *)

(** C4. When the front controller rejects the running transition [t] with
    [e], [currentStateList] and the window with its history stay as they
    were, no history write is among the events, and the promise handed to
    the caller is rejected with [e].  The queue is emptied all the same: if
    it held an entry, the front controller is called for it and the router
    is pending for that transition; if not, the router is idle. *)
Theorem controller_failure (m : URLStateMap) (w : World) (t : Transition)
    (e : error) :
  inflight w = Some t ->
  let q := _queue (router w) in
  let w' := settle m (Rejected e) w in
  currentStateList (router w') = currentStateList (router w) /\
  window (router w') = window (router w) /\
  exists ev : list event,
    trace w' = trace w ++ ev /\ noWrite ev /\
    (forall p, outcomeFuture t = Some p -> In (Settled p (Rejected e)) ev) /\
    if hasEntry q then
      In (FrontControllerState
            (match q_stateList q with Some sl => sl | None => [] end)
            (Some (upgrade q))) ev /\
      (exists n,
         inflight w' =
           Some {| t_then := DoQueuedTransitionK
                               (match q_stateList q with
                                | Some sl => sl | None => [] end)
                               (fromHistory q) (push q) (promise q);
                   t_promise := n |}) /\
      pending (router w') = true /\
      _queue (router w') = emptyQueue
    else
      inflight w' = None /\ pending (router w') = false.
Proof.
  intros Hin q w'.
  pose proof (settle_trace m (Rejected e) w t Hin) as T.
  pose proof (settle_window m (Rejected e) w t Hin) as W.
  pose proof (settle_current m (Rejected e) w t Hin) as C.
  pose proof (settle_next m (Rejected e) w t Hin) as N.
  cbv zeta in N. fold w' in T, W, C, N. fold q in T, N.
  simpl in T, W, C.
  split; [exact C|]. split; [exact W|].
  eexists. split; [exact T|]. split; [|split].
  - apply (noWrite_app [_]); [reflexivity|].
    apply noWrite_app; [apply noWrite_drained | apply noWrite_settlements].
  - intros p Hp. right. apply in_or_app. right. now apply In_settlements.
  - unfold drained. destruct (hasEntry q).
    + destruct N as (Ni & Np & Nq). split; [right; left; reflexivity|].
      split; [eexists; exact Ni|]. split; [|exact Nq].
      exact (pending_of_promise _ _ Np).
    + destruct N as (Ni & Np & _). split; [exact Ni|].
      unfold pending. now rewrite Np.
Qed.

Lemma controller_failure_witness :
  let w := run testMap [EnterStates ["foo"] None; QueueEnterStates ["bar"] None]
             (newRouter windowStub) in
  let t := {| t_then := EnterStatesK ["foo"] true; t_promise := 0 |} in
  inflight w = Some t /\
  currentStateList (router (settle testMap (Rejected "E") w)) = None /\
  pending (router (settle testMap (Rejected "E") w)) = true.
Proof.
  intros w t. split; [reflexivity|].
  destruct (controller_failure testMap w t "E" eq_refl)
    as (H1 & _ & ev & _ & _ & _ & H2).
  split; [exact H1|].
  change (hasEntry (_queue (router w))) with true in H2.
  destruct H2 as (_ & _ & H2 & _). exact H2.
Defined.

(** A rejection by the front controller emits no notification whatever. *)
Lemma rejection_emits_nothing (m : URLStateMap) (w : World) (t : Transition)
    (e : error) :
  inflight w = Some t ->
  exists ev : list event,
    trace (settle m (Rejected e) w) = trace w ++ ev /\ noEmit ev.
Proof.
  intros Hin. rewrite (settle_trace m (Rejected e) w t Hin). simpl.
  eexists. split; [reflexivity|].
  apply (noEmit_app [_]); [reflexivity|].
  apply noEmit_app; [apply noEmit_drained | apply noEmit_settlements].
Qed.

(** C5. At [enterStates(['foo'])] with a front controller that rejects with
    E, the router emits nothing: the events are the call, the rejection and
    the rejected promise, and no 'transitionFailed'.  At a popstate for an
    own record whose transition is rejected, 'historyPopState' is the only
    notification: neither 'transitionFailed' nor 'historyPopStateFailed'
    follows. *)
Theorem failure_is_not_notified :
  trace (run testMap [EnterStates ["foo"] None; ControllerSettles (Rejected "E")]
           (newRouter windowStub)) =
    [FrontControllerState ["foo"] None;
     FrontControllerSettled (Rejected "E");
     Settled 0 (Rejected "E")] /\
  trace (run testMap [AttachPopStateListener; PopState (HOwn "/qwerty");
                      ControllerSettles (Rejected "E")]
           (newRouter windowStub)) =
    [AddEventListener;
     FrontControllerState ["baz"] (Some false);
     Emit "historyPopState" ["baz"] "/qwerty" (Some 0) None true;
     FrontControllerSettled (Rejected "E");
     Settled 0 (Rejected "E")].
Proof. split; reflexivity. Qed.

(** ** A codec that cannot encode *)

(** C10. If the front controller fulfils a transition started by
    [enterStates] but [toURL] throws [e] for the list to be stored, then
    [currentStateList] has been set to that list all the same (to
    [stateList] itself when no replacement was recorded), the window and its
    history are untouched, the events hold neither a history write nor a
    notification, and the promise of the transition is rejected with [e]. *)
Theorem encode_failure (m : URLStateMap) (w : World) (t : Transition)
    (sl : StateList) (ph : bool) (e : error) :
  inflight w = Some t -> t_then t = EnterStatesK sl ph ->
  toURL m (replaceOr (router w) sl) = inr e ->
  let w' := settle m Fulfilled w in
  currentStateList (router w') = Some (replaceOr (router w) sl) /\
  (_pendingReplace (router w) = None ->
   currentStateList (router w') = Some sl) /\
  window (router w') = window (router w) /\
  exists ev : list event,
    trace w' =
      trace w ++ FrontControllerSettled Fulfilled :: ev ++
      [Settled (t_promise t) (Rejected e)] /\
    noWrite ev /\ noEmit ev.
Proof.
  intros Hin Hk He w'.
  pose proof (settle_trace m Fulfilled w t Hin) as T.
  pose proof (settle_window m Fulfilled w t Hin) as W.
  pose proof (settle_current m Fulfilled w t Hin) as C.
  fold w' in T, W, C.
  unfold handlerEvents, transitionOutcome, settlements in T.
  rewrite Hk in T, W, C. simpl in T, W, C. rewrite He in T, W.
  split; [exact C|]. split; [|split; [exact W|]].
  - intros Hr. rewrite C. unfold replaceOr. now rewrite Hr.
  - exists (drained (_queue (router w))). split; [exact T|].
    split; [apply noWrite_drained | apply noEmit_drained].
Qed.

Lemma encode_failure_witness :
  let w := run testMap [EnterStates ["qux"] None] (newRouter windowStub) in
  let t := {| t_then := EnterStatesK ["qux"] true; t_promise := 0 |} in
  inflight w = Some t /\ t_then t = EnterStatesK ["qux"] true /\
  toURL testMap (replaceOr (router w) ["qux"]) =
    inr "Should not occur in this test case" /\
  currentStateList (router (settle testMap Fulfilled w)) = Some ["qux"] /\
  window (router (settle testMap Fulfilled w)) = window (router w).
Proof.
  intros w t.
  split; [reflexivity|]. split; [reflexivity|]. split; [reflexivity|].
  destruct (encode_failure testMap w t ["qux"] true
              "Should not occur in this test case" eq_refl eq_refl eq_refl)
    as (H1 & _ & H3 & _).
  split; [exact H1 | exact H3].
Defined.

(** ** [replaceStateList] during a transition *)

(** C6, as amended.  Let [replaceStateList X] be called while a transition
    runs that was started by [enterStates] or taken from the queue, and let
    the front controller then fulfil it.  The call itself changes neither the
    trace nor [currentStateList]; after the settlement [currentStateList] is
    [X].  A transition without a pinned url writes the record of [X]'s url
    to the history, right after the front controller has settled; a queued
    transition that stems from a history record keeps its pinned url and
    writes nothing. *)
Theorem replace_under_contention (m : URLStateMap) (w : World) (t : Transition)
    (X : StateList) (u : url) :
  inflight w = Some t -> pending (router w) = true ->
  toURL m X = inl u -> viaHandleHistoryState (t_then t) = false ->
  let w1 := fst (replaceStateList m X w) in
  let w' := settle m Fulfilled w1 in
  trace w1 = trace w /\
  currentStateList (router w1) = currentStateList (router w) /\
  currentStateList (router w') = Some X /\
  match pinned (t_then t) with
  | None =>
      history_state (window (router w')) = HOwn u /\
      exists post : list event,
        trace w' =
          trace w ++ FrontControllerSettled Fulfilled ::
          (if pushes (t_then t) then PushState (HOwn u) u
           else ReplaceState (HOwn u) u) :: post /\
        noWrite post
  | Some _ =>
      window (router w') = window (router w) /\
      exists ev : list event, trace w' = trace w ++ ev /\ noWrite ev
  end.
Proof.
  intros Hin Hp Hu Hk w1 w'.
  assert (E1 : w1 = on_router (set_pendingReplace (Some X)) w).
  { unfold w1, replaceStateList. now rewrite Hp. }
  assert (Hin1 : inflight w1 = Some t) by (rewrite E1; exact Hin).
  assert (Hent : entered (t_then t) (router w1) = X).
  { rewrite E1. destruct (t_then t); try discriminate; reflexivity. }
  pose proof (settle_trace m Fulfilled w1 t Hin1) as T.
  pose proof (settle_window m Fulfilled w1 t Hin1) as W.
  pose proof (settle_current m Fulfilled w1 t Hin1) as C.
  fold w' in T, W, C. rewrite Hent in T, W, C.
  unfold handlerEvents in T. rewrite Hent in T.
  split; [now rewrite E1|]. split; [now rewrite E1|]. split; [exact C|].
  destruct (pinned (t_then t)) as [u'|].
  - split; [rewrite W, E1; reflexivity|].
    eexists. split; [rewrite T, E1; reflexivity|].
    apply (noWrite_app [_; _]); [reflexivity|].
    apply noWrite_app; [apply noWrite_drained | apply noWrite_settlements].
  - rewrite Hu in T, W. split; [now rewrite W|].
    eexists. split; [rewrite T, E1; reflexivity|].
    apply (noWrite_app [_]); [reflexivity|].
    apply noWrite_app; [apply noWrite_drained | apply noWrite_settlements].
Qed.

Lemma replace_under_contention_witness :
  let w := run testMap [EnterStates ["foo"] None] (newRouter windowStub) in
  let t := {| t_then := EnterStatesK ["foo"] true; t_promise := 0 |} in
  let w' := settle testMap Fulfilled (fst (replaceStateList testMap ["bar"] w)) in
  inflight w = Some t /\ pending (router w) = true /\
  toURL testMap ["bar"] = inl "/bar" /\
  viaHandleHistoryState (t_then t) = false /\
  currentStateList (router w') = Some ["bar"] /\
  history_state (window (router w')) = HOwn "/bar".
Proof.
  intros w t w'.
  split; [reflexivity|]. split; [reflexivity|].
  split; [reflexivity|]. split; [reflexivity|].
  destruct (replace_under_contention testMap w t ["bar"] "/bar"
              eq_refl eq_refl eq_refl eq_refl)
    as (_ & _ & H3 & H4 & _).
  split; [exact H3 | exact H4].
Defined.

(** C6, as stated, fails.  A popstate for the own record of '/qwerty'
    arrives while [enterStates(['foo'])] runs and is queued; once it runs,
    [replaceStateList(['bar'])] is called and the front controller fulfils.
    [currentStateList] is then ['bar'], but the settlement writes nothing to
    the history: no record with the url of ['bar'] is pushed or replaced. *)
Lemma replace_under_contention_counterexample :
  let w := run testMap [AttachPopStateListener; EnterStates ["foo"] None;
                        PopState (HOwn "/qwerty"); ControllerSettles Fulfilled]
             (newRouter windowStub) in
  let w' := settle testMap Fulfilled (fst (replaceStateList testMap ["bar"] w)) in
  pending (router w) = true /\
  inflight w =
    Some {| t_then := DoQueuedTransitionK ["baz"] (Some "/qwerty") false (Some 1);
            t_promise := 2 |} /\
  toURL testMap ["bar"] = inl "/bar" /\
  ~ (currentStateList (router w') = Some ["bar"] /\
     exists h, In (PushState h "/bar") (since w w') \/
               In (ReplaceState h "/bar") (since w w')).
Proof.
  intros w w'.
  split; [reflexivity|]. split; [reflexivity|]. split; [reflexivity|].
  intros [_ [h H]]. vm_compute in H.
  destruct H as [H|H];
    repeat (destruct H as [H|H]; [discriminate|]); exact H.
Qed.

(** ** What a settlement clears *)

(** C7, at the failing input.  A popstate for the own record of '/qwerty'
    starts a transition at once; [replaceStateList(['bar'])] is recorded
    while it runs.  After the settlement the router is idle, but the
    recorded replacement is still there, and [currentStateList] is ['baz'].
    The next [enterStates(['foo'])] then ends in ['bar'] and pushes the url
    of ['bar']. *)
Theorem settlement_keeps_replacement :
  let w := run testMap [AttachPopStateListener; PopState (HOwn "/qwerty");
                        ReplaceStateList ["bar"]; ControllerSettles Fulfilled]
             (newRouter windowStub) in
  let w2 := run testMap [EnterStates ["foo"] None; ControllerSettles Fulfilled]
              w in
  pending (router w) = false /\
  _pendingReplace (router w) = Some ["bar"] /\
  currentStateList (router w) = Some ["baz"] /\
  currentStateList (router w2) = Some ["bar"] /\
  since w w2 =
    [FrontControllerState ["foo"] None;
     FrontControllerSettled Fulfilled;
     PushState (HOwn "/bar") "/bar";
     Emit "transitionComplete" ["foo"] "/bar" None (Some ["bar"]) true;
     Settled 1 Fulfilled].
Proof. repeat split. Qed.

(** ** The initial history record *)

Lemma settle_initial (m : URLStateMap) (o : outcome) (w : World) :
  _initialHistoryState (router (settle m o w)) =
  _initialHistoryState (router w).
Proof.
  destruct (inflight w) as [t|] eqn:Hin.
  - rewrite (settle_unfold m o w t Hin). cbv zeta.
    set (w0 := log (FrontControllerSettled o) (set_inflight None w)).
    match goal with |- context [on_return t ?a ?b] =>
      destruct (on_return_control t a b) as (-> & _) end.
    match goal with |- context [_doQueuedTransition ?b] =>
      destruct (doQueued_router b) as (_ & _ & _ & ->) end.
    match goal with |- context [cleared ?a ?b] =>
      destruct (cleared_control a b) as (_ & _ & _ & _ & _ & _ & -> & _) end.
    destruct (on_settled_control m (t_then t) o w0)
      as (_ & _ & _ & _ & _ & ->).
    reflexivity.
  - unfold settle. now rewrite Hin.
Qed.

Lemma saveStateAsInitial_reads (w : World) :
  _initialHistoryState (router (_saveStateAsInitial w)) =
  hostRecord (window (router w)).
Proof.
  unfold _saveStateAsInitial, hostRecord.
  destruct (hasRouterUrl (history_state (window (router w)))); reflexivity.
Qed.

Lemma handleHistoryState_initial (m : URLStateMap) (h : HistoryState)
    (upg : bool) (ev : string) (w : World) :
  _initialHistoryState (router (fst (_handleHistoryState m h upg ev w))) =
  _initialHistoryState (router w).
Proof.
  unfold _handleHistoryState.
  destruct h as [| k | k | u]; try reflexivity.
  destruct (fromURL m u) as [sl|e]; [|reflexivity].
  destruct (pending (router w)).
  - destruct (addToQueue_spec sl (Some u) upg false w)
      as (p & w' & E & _ & _ & _ & _ & _ & _ & _ & _ & I).
    rewrite E. simpl. exact I.
  - reflexivity.
Qed.

(** C8, as amended.  Once an initial record has been captured, attaching
    the popstate listener does not overwrite it, and neither does any other
    call, popstate or settlement except [upgradeInitialState]:
    [upgradeInitialState] captures anew on every call, so that afterwards
    the stored record is the one the host shows at that moment (its history
    state if that is a record of the router, else the record of the current
    location). *)
Theorem initial_record_capture (m : URLStateMap) (w : World) :
  truthy (_initialHistoryState (router w)) = true ->
  _initialHistoryState (router (fst (attachPopStateListener w))) =
    _initialHistoryState (router w) /\
  (forall a : action,
     a <> UpgradeInitialState ->
     _initialHistoryState (router (step m a w)) =
     _initialHistoryState (router w)) /\
  _initialHistoryState (router (fst (upgradeInitialState m w))) =
    hostRecord (window (router w)).
Proof.
  intros Ht.
  assert (Ha : _initialHistoryState (router (fst (attachPopStateListener w))) =
               _initialHistoryState (router w)).
  { unfold attachPopStateListener. simpl. now rewrite Ht. }
  split; [exact Ha|]. split.
  - intros a Hne.
    destruct a as [sl ph | sl ph | sl | | | s | o]; simpl.
    + unfold enterStates. destruct (pending (router w)); reflexivity.
    + unfold queueEnterStates, enterStates.
      destruct (pending (router w)) eqn:Hp.
      * destruct (addToQueue_spec sl None false (default_true ph) w)
          as (p & w' & E & _ & _ & _ & _ & _ & _ & _ & _ & I).
        rewrite E. simpl. exact I.
      * reflexivity.
    + unfold replaceStateList, _pushHistoryState.
      destruct (pending (router w)); [reflexivity|]. simpl.
      destruct (toURL m sl); reflexivity.
    + congruence.
    + exact Ha.
    + destruct (popstateListener (window (router w))); [|reflexivity].
      unfold _onpopstate.
      pose proof (handleHistoryState_initial m
                    (hs_or s (_initialHistoryState (router w))) false
                    "historyPopState" w) as H.
      destruct (_handleHistoryState m _ false "historyPopState" w)
        as [w1 [r|e]]; exact H.
    + apply settle_initial.
  - unfold upgradeInitialState.
    rewrite handleHistoryState_initial. apply saveStateAsInitial_reads.
Qed.

Lemma initial_record_capture_witness :
  let w := run testMap [UpgradeInitialState; ControllerSettles Fulfilled]
             (newRouter windowStub) in
  truthy (_initialHistoryState (router w)) = true /\
  _initialHistoryState (router (fst (attachPopStateListener w))) =
    HOwn "/foo/bar" /\
  _initialHistoryState (router (fst (upgradeInitialState testMap w))) =
    hostRecord (window (router w)).
Proof.
  intros w. split; [reflexivity|].
  destruct (initial_record_capture testMap w eq_refl) as (H1 & _ & H3).
  split; [exact H1 | exact H3].
Defined.

(** C8, as stated, fails.  [upgradeInitialState] captures the record of
    '/foo/bar'.  After [enterStates(['baz'])] has pushed '/qwerty', a second
    [upgradeInitialState] replaces the stored record by that of
    '/qwerty'. *)
Lemma initial_record_capture_counterexample :
  let w := run testMap [UpgradeInitialState; ControllerSettles Fulfilled;
                        EnterStates ["baz"] None; ControllerSettles Fulfilled]
             (newRouter windowStub) in
  _initialHistoryState (router w) = HOwn "/foo/bar" /\
  _initialHistoryState (router (fst (upgradeInitialState testMap w))) =
    HOwn "/qwerty" /\
  _initialHistoryState (router (fst (upgradeInitialState testMap w))) <>
    _initialHistoryState (router w).
Proof.
  intros w. split; [reflexivity|]. split; [reflexivity|]. discriminate.
Qed.

(** ** Records of others *)

(** A popstate is ignored when the record that [_onpopstate] settles on,
    which is the record of the event if that is truthy and the captured
    initial record otherwise, is not a record of the router: the world, its
    trace included, is as before.  This holds in particular for a null state
    with no initial record captured and for every truthy state that is not a
    record of the router. *)
Theorem popstate_ignored (m : URLStateMap) (e_state : HistoryState)
    (w : World) :
  hasRouterUrl (hs_or e_state (_initialHistoryState (router w))) = false ->
  _onpopstate m e_state w = (w, Return None) /\
  step m (PopState e_state) w = w.
Proof.
  intros H.
  assert (E : _onpopstate m e_state w = (w, Return None)).
  { unfold _onpopstate, _handleHistoryState.
    destruct (hs_or e_state (_initialHistoryState (router w)));
      try reflexivity; discriminate. }
  split; [exact E|]. simpl. rewrite E.
  now destruct (popstateListener (window (router w))).
Qed.

Lemma popstate_ignored_witness :
  let w := run testMap [AttachPopStateListener] (newRouter windowStub) in
  hasRouterUrl (hs_or (HForeign 0) (_initialHistoryState (router w))) = false /\
  step testMap (PopState (HForeign 0)) w = w.
Proof.
  intros w. split; [reflexivity|].
  apply (popstate_ignored testMap (HForeign 0) w). reflexivity.
Defined.

(** C9, at the failing input.  With the listener attached and the record
    of '/foo/bar' captured, a popstate arrives whose state is 0: not null,
    and not a record of the router, so that the effective record in the
    words of the specification lacks the tag of the router.  The event is
    not ignored: [e.state || this._initialHistoryState] takes the falsy
    state for a missing one, falls back on the initial record, calls the
    front controller for ['foo'] and emits 'historyPopState'. *)
Theorem falsy_popstate_is_not_ignored :
  let w := run testMap [AttachPopStateListener] (newRouter windowStub) in
  let w' := step testMap (PopState (HFalsy 0)) w in
  hasRouterUrl
    (effectiveRecord_spec (HFalsy 0) (_initialHistoryState (router w))) = false /\
  since w w' =
    [FrontControllerState ["foo"] (Some false);
     Emit "historyPopState" ["foo"] "/foo/bar" (Some 0) None true] /\
  w' <> w.
Proof.
  intros w w'. split; [reflexivity|]. split; [reflexivity|]. discriminate.
Qed.

(** * Further properties of the router *)

Lemma World_ext (w1 w2 : World) :
  router w1 = router w2 -> inflight w1 = inflight w2 ->
  fresh w1 = fresh w2 -> trace w1 = trace w2 -> w1 = w2.
Proof. destruct w1, w2. simpl. intros. subst. reflexivity. Qed.

Lemma Router_ext (r1 r2 : Router) :
  window r1 = window r2 -> currentStateList r1 = currentStateList r2 ->
  _pendingTransitionPromise r1 = _pendingTransitionPromise r2 ->
  _pendingReplace r1 = _pendingReplace r2 ->
  _initialHistoryState r1 = _initialHistoryState r2 ->
  _queue r1 = _queue r2 -> r1 = r2.
Proof. destruct r1, r2. simpl. intros. subst. reflexivity. Qed.

Lemma run_enterStates_fulfilled (m : URLStateMap) (w : World)
    (sl : StateList) (ph : option bool) (u : url) :
  pending (router w) = false -> _pendingReplace (router w) = None ->
  hasEntry (_queue (router w)) = false -> toURL m sl = inl u ->
  run m [EnterStates sl ph; ControllerSettles Fulfilled] w =
    {| router :=
         {| window := host_write (HOwn u) u (window (router w));
            currentStateList := Some sl;
            _pendingTransitionPromise := None;
            _pendingReplace := None;
            _initialHistoryState := _initialHistoryState (router w);
            _queue := _queue (router w) |};
       inflight := None;
       fresh := S (fresh w);
       trace :=
         trace w ++
         [FrontControllerState sl None;
          FrontControllerSettled Fulfilled;
          if default_true ph then PushState (HOwn u) u
          else ReplaceState (HOwn u) u;
          Emit "transitionComplete" sl u None (Some sl) true;
          Settled (fresh w) Fulfilled] |}.
Proof.
  intros Hp Hr Hq Hu. simpl.
  unfold enterStates. rewrite Hp. simpl.
  unfold settle. simpl. unfold replaceOr. simpl. rewrite Hr.
  unfold _pushHistoryState. rewrite Hu. simpl.
  unfold _doQueuedTransition. simpl. rewrite Hq.
  apply World_ext; [apply Router_ext| | |]; simpl; try reflexivity.
  rewrite <- !app_assoc. reflexivity.
Qed.

(** ** Transitions that go well *)

(** X1. On an idle router with no recorded replacement and an empty queue,
    [enterStates stateList] followed by the front controller's fulfilment
    calls the front controller once, without an upgrade argument, then
    writes the record of the list's url (a push unless [pushHistory] is
    false, then a replace), emits 'transitionComplete' with the list and the
    url, and fulfils the returned promise.  Afterwards [currentStateList] is
    the list and the router is idle. *)
Theorem enterStates_completes (m : URLStateMap) (w : World) (sl : StateList)
    (ph : option bool) (u : url) :
  pending (router w) = false -> _pendingReplace (router w) = None ->
  hasEntry (_queue (router w)) = false -> toURL m sl = inl u ->
  let w' := run m [EnterStates sl ph; ControllerSettles Fulfilled] w in
  snd (enterStates sl ph w) = Return (Some (fresh w)) /\
  trace w' =
    trace w ++
    [FrontControllerState sl None;
     FrontControllerSettled Fulfilled;
     if default_true ph then PushState (HOwn u) u else ReplaceState (HOwn u) u;
     Emit "transitionComplete" sl u None (Some sl) true;
     Settled (fresh w) Fulfilled] /\
  currentStateList (router w') = Some sl /\
  window (router w') = host_write (HOwn u) u (window (router w)) /\
  pending (router w') = false /\ inflight w' = None.
Proof.
  intros Hp Hr Hq Hu w'. unfold w'.
  rewrite (run_enterStates_fulfilled m w sl ph u Hp Hr Hq Hu). simpl.
  unfold enterStates. rewrite Hp. simpl. repeat split.
Qed.

(** X2. On an idle router [replaceStateList] sets [currentStateList] at once
    and starts no transition.  If the codec yields a url, the one event is a
    replace (never a push) of that url's record; if the codec throws, the
    call throws the same error with the history untouched, though
    [currentStateList] has already been set. *)
Theorem replaceStateList_idle (m : URLStateMap) (w : World) (sl : StateList) :
  pending (router w) = false ->
  let w' := fst (replaceStateList m sl w) in
  currentStateList (router w') = Some sl /\
  inflight w' = inflight w /\ _queue (router w') = _queue (router w) /\
  pending (router w') = false /\
  match toURL m sl with
  | inl u =>
      snd (replaceStateList m sl w) = Return None /\
      trace w' = trace w ++ [ReplaceState (HOwn u) u] /\
      window (router w') = host_write (HOwn u) u (window (router w))
  | inr e =>
      snd (replaceStateList m sl w) = Throw e /\
      trace w' = trace w /\ window (router w') = window (router w)
  end.
Proof.
  intros Hp w'. unfold w', replaceStateList, _pushHistoryState. rewrite Hp.
  simpl. destruct (toURL m sl) as [u|e]; simpl; repeat split; exact Hp.
Qed.

(** ** Replacements *)

(** X3. A replacement recorded during a transition started by [enterStates]
    or taken from the queue is dropped when the front controller rejects:
    [currentStateList] and the window stay as they were, nothing is written
    to the history, and no replacement is left recorded. *)
Theorem failure_drops_replacement (m : URLStateMap) (w : World)
    (t : Transition) (X : StateList) (e : error) :
  inflight w = Some t -> pending (router w) = true ->
  viaHandleHistoryState (t_then t) = false ->
  let w' := run m [ReplaceStateList X; ControllerSettles (Rejected e)] w in
  currentStateList (router w') = currentStateList (router w) /\
  _pendingReplace (router w') = None /\
  window (router w') = window (router w) /\
  noWrite (since w w').
Proof.
  intros Hin Hp Hk w'. unfold w'. simpl.
  unfold replaceStateList. rewrite Hp. simpl.
  set (w1 := on_router (set_pendingReplace (Some X)) w).
  assert (Hin1 : inflight w1 = Some t) by exact Hin.
  rewrite (settle_current m (Rejected e) w1 t Hin1).
  rewrite (settle_pendingReplace m (Rejected e) w1 t Hin1).
  rewrite (settle_window m (Rejected e) w1 t Hin1).
  split; [reflexivity|]. split; [now destruct (t_then t)|].
  split; [reflexivity|].
  unfold since. rewrite (settle_trace m (Rejected e) w1 t Hin1).
  change (trace w1) with (trace w).
  rewrite skipn_app, skipn_all, Nat.sub_diag. simpl.
  apply (noWrite_app [_]); [reflexivity|].
  apply noWrite_app; [apply noWrite_drained | apply noWrite_settlements].
Qed.

(** X4. While a transition runs, a second [replaceStateList] overwrites the
    first: the router is in the very state a single call with the second
    list leaves it in, and on fulfilment of a transition started by
    [enterStates] or taken from the queue [currentStateList] is the second
    list. *)
Theorem last_replacement_wins (m : URLStateMap) (w : World) (t : Transition)
    (X Y : StateList) :
  inflight w = Some t -> pending (router w) = true ->
  run m [ReplaceStateList X; ReplaceStateList Y] w =
    run m [ReplaceStateList Y] w /\
  (viaHandleHistoryState (t_then t) = false ->
   currentStateList
     (router (run m [ReplaceStateList X; ReplaceStateList Y;
                     ControllerSettles Fulfilled] w)) = Some Y).
Proof.
  intros Hin Hp.
  assert (E : run m [ReplaceStateList X; ReplaceStateList Y] w =
              run m [ReplaceStateList Y] w).
  { simpl. unfold replaceStateList at 2 3. rewrite Hp. simpl.
    unfold replaceStateList.
    change (pending (router (on_router (set_pendingReplace (Some X)) w)))
      with (pending (router w)).
    rewrite Hp. reflexivity. }
  split; [exact E|].
  intros Hk.
  change (run m [ReplaceStateList X; ReplaceStateList Y;
                 ControllerSettles Fulfilled] w)
    with (settle m Fulfilled (run m [ReplaceStateList X; ReplaceStateList Y] w)).
  rewrite E. simpl. unfold replaceStateList. rewrite Hp. simpl.
  set (w1 := on_router (set_pendingReplace (Some Y)) w).
  assert (Hin1 : inflight w1 = Some t) by exact Hin.
  rewrite (settle_current m Fulfilled w1 t Hin1).
  destruct (t_then t); try discriminate; reflexivity.
Qed.

(** ** Transitions from the history *)

(** X5. On an idle router with the listener attached, a popstate with a
    record of the router for url [u] calls the front controller with the
    decoded list and upgrade false, and emits 'historyPopState' with the
    list, [u] and the promise before anything has changed.  On fulfilment
    [currentStateList] is the decoded list, 'transitionComplete' carries
    [u], and the window and its history are untouched: nothing is written. *)
Theorem popstate_transition (m : URLStateMap) (w : World) (u : url)
    (sl : StateList) :
  popstateListener (window (router w)) = true ->
  pending (router w) = false -> hasEntry (_queue (router w)) = false ->
  fromURL m u = inl sl ->
  let w' := run m [PopState (HOwn u); ControllerSettles Fulfilled] w in
  trace w' =
    trace w ++
    [FrontControllerState sl (Some false);
     Emit "historyPopState" sl u (Some (fresh w))
       (currentStateList (router w)) true;
     FrontControllerSettled Fulfilled;
     Emit "transitionComplete" sl u None (Some sl) true;
     Settled (fresh w) Fulfilled] /\
  currentStateList (router w') = Some sl /\
  window (router w') = window (router w) /\
  pending (router w') = false.
Proof.
  intros Hl Hp Hq Hu w'. unfold w'. simpl. rewrite Hl.
  unfold _onpopstate, _handleHistoryState. simpl. rewrite Hu, Hp. simpl.
  unfold settle. simpl.
  unfold _doQueuedTransition. simpl. rewrite Hq. simpl.
  rewrite <- ?app_assoc. simpl. repeat split.
Qed.

(** X6. If the codec cannot decode the url of the record a popstate settles
    on, [_onpopstate] throws the codec's error and changes nothing: no call
    of the front controller, no notification, no queue entry. *)
Theorem popstate_undecodable (m : URLStateMap) (w : World)
    (e_state : HistoryState) (u : url) (e : error) :
  hs_or e_state (_initialHistoryState (router w)) = HOwn u ->
  fromURL m u = inr e ->
  _onpopstate m e_state w = (w, Throw e) /\
  step m (PopState e_state) w = w.
Proof.
  intros Hh Hu.
  assert (E : _onpopstate m e_state w = (w, Throw e)).
  { unfold _onpopstate, _handleHistoryState. rewrite Hh, Hu. reflexivity. }
  split; [exact E|]. simpl. rewrite E.
  now destruct (popstateListener (window (router w))).
Qed.

(** X7. If the codec cannot decode the url of the page, that is the url of
    [history.state] if it is a record of the router and the location
    otherwise, [upgradeInitialState] throws the codec's error; the only
    change is that the record of that url has been captured as the initial
    record. *)
Theorem upgrade_undecodable (m : URLStateMap) (w : World) (e : error) :
  fromURL m (hostUrl (window (router w))) = inr e ->
  upgradeInitialState m w =
    (on_router (set_initialHistoryState (HOwn (hostUrl (window (router w))))) w,
     Throw e).
Proof.
  intros Hu. unfold upgradeInitialState, _saveStateAsInitial, hostUrl in *.
  destruct (history_state (window (router w))) as [| k | k | u] eqn:Eh;
    simpl; unfold _handleHistoryState; simpl; rewrite Hu; reflexivity.
Qed.

(** X8. On an idle router [upgradeInitialState] decodes the url of the page,
    calls the front controller with the decoded list and upgrade true, and
    emits 'upgradeInitialState'.  On fulfilment [currentStateList] is the
    decoded list and 'transitionComplete' carries the url; the window and
    its history are untouched, and the captured initial record is that of
    the url. *)
Theorem upgrade_transition (m : URLStateMap) (w : World) (sl : StateList) :
  pending (router w) = false -> hasEntry (_queue (router w)) = false ->
  fromURL m (hostUrl (window (router w))) = inl sl ->
  let u := hostUrl (window (router w)) in
  let w' := run m [UpgradeInitialState; ControllerSettles Fulfilled] w in
  trace w' =
    trace w ++
    [FrontControllerState sl (Some true);
     Emit "upgradeInitialState" sl u (Some (fresh w))
       (currentStateList (router w)) true;
     FrontControllerSettled Fulfilled;
     Emit "transitionComplete" sl u None (Some sl) true;
     Settled (fresh w) Fulfilled] /\
  currentStateList (router w') = Some sl /\
  window (router w') = window (router w) /\
  _initialHistoryState (router w') = HOwn u /\
  pending (router w') = false.
Proof.
  intros Hp Hq Hu u w'. unfold w', u in *. clear w' u. simpl.
  unfold upgradeInitialState, _saveStateAsInitial, hostUrl in *.
  destruct (history_state (window (router w))) as [| k | k | v] eqn:Eh;
    simpl; unfold _handleHistoryState; simpl; rewrite Hu; simpl;
    unfold pending in *; simpl;
    destruct (_pendingTransitionPromise (router w)); try discriminate; simpl;
    unfold settle; simpl; unfold _doQueuedTransition; simpl; rewrite Hq; simpl;
    rewrite <- ?app_assoc; simpl; repeat split.
Qed.

(** X9. A record that the router writes is one it recognises.  If the codec
    decodes the url of [stateList] back to [stateList], then after
    [enterStates stateList] has completed, a popstate that delivers the
    history state the router has written enters [stateList] again, with
    upgrade false, and writes nothing. *)
Theorem written_record_comes_back (m : URLStateMap) (w : World)
    (sl : StateList) (ph : option bool) (u : url) :
  popstateListener (window (router w)) = true ->
  pending (router w) = false -> _pendingReplace (router w) = None ->
  hasEntry (_queue (router w)) = false ->
  toURL m sl = inl u -> fromURL m u = inl sl ->
  let w1 := run m [EnterStates sl ph; ControllerSettles Fulfilled] w in
  let w2 := run m [PopState (history_state (window (router w1)));
                   ControllerSettles Fulfilled] w1 in
  history_state (window (router w1)) = HOwn u /\
  trace w2 =
    trace w1 ++
    [FrontControllerState sl (Some false);
     Emit "historyPopState" sl u (Some (fresh w1)) (Some sl) true;
     FrontControllerSettled Fulfilled;
     Emit "transitionComplete" sl u None (Some sl) true;
     Settled (fresh w1) Fulfilled] /\
  currentStateList (router w2) = Some sl /\
  window (router w2) = window (router w1).
Proof.
  intros Hl Hp Hr Hq Ht Hf w1 w2. unfold w2, w1. clear w1 w2.
  rewrite (run_enterStates_fulfilled m w sl ph u Hp Hr Hq Ht).
  simpl. rewrite Hl.
  unfold _onpopstate, _handleHistoryState. simpl. rewrite Hf. simpl.
  unfold settle. simpl. unfold _doQueuedTransition. simpl. rewrite Hq. simpl.
  rewrite <- ?app_assoc. simpl. repeat split.
Qed.

(** X10. When the listener is attached on a page whose history state is not
    a record of the router, the record of the location is captured; a
    popstate whose state is null (or falsy) then starts a transition to the
    list decoded from that location, with upgrade false. *)
Theorem popstate_falls_back_on_initial (m : URLStateMap) (w : World)
    (e_state : HistoryState) (sl : StateList) :
  truthy e_state = false ->
  _initialHistoryState (router w) = HNull ->
  hasRouterUrl (history_state (window (router w))) = false ->
  pending (router w) = false ->
  fromURL m (location (window (router w))) = inl sl ->
  let w' := run m [AttachPopStateListener; PopState e_state] w in
  _initialHistoryState (router w') = HOwn (location (window (router w))) /\
  trace w' =
    trace w ++
    [AddEventListener;
     FrontControllerState sl (Some false);
     Emit "historyPopState" sl (location (window (router w)))
       (Some (fresh w)) (currentStateList (router w)) true].
Proof.
  intros He Hi Hh Hp Hu w'. unfold w'. simpl.
  unfold attachPopStateListener. simpl. rewrite Hi. simpl.
  unfold _saveStateAsInitial. simpl. rewrite Hh. simpl.
  unfold _onpopstate, hs_or. rewrite He. simpl.
  unfold _handleHistoryState. rewrite Hu.
  change (pending _) with (pending (router w)). rewrite Hp. simpl.
  rewrite <- ?app_assoc. simpl. split; reflexivity.
Qed.

(** ** What happens while a transition runs *)

(** X13. While a transition is pending, no call of the router and no
    popstate calls the front controller or writes to the history: the
    events they add contain neither, and the transition in flight, the
    pending promise, the history state and the location stay as they
    are. *)
Theorem pending_calls_are_quiet (m : URLStateMap) (a : action) (w : World) :
  pending (router w) = true -> isCallerAction a = true ->
  (exists ev : list event,
     trace (step m a w) = trace w ++ ev /\ noCall ev /\ noWrite ev) /\
  inflight (step m a w) = inflight w /\
  _pendingTransitionPromise (router (step m a w)) =
    _pendingTransitionPromise (router w) /\
  history_state (window (router (step m a w))) =
    history_state (window (router w)) /\
  location (window (router (step m a w))) = location (window (router w)).
Proof.
  intros Hp Ha. destruct a as [sl ph | sl ph | sl | | | s | o]; simpl.
  - rewrite (enterStates_pending sl ph w Hp). simpl.
    split; [eexists; split; [reflexivity|]; split; reflexivity|]. auto.
  - rewrite (queueEnterStates_pending sl ph w Hp). simpl.
    destruct (addToQueue_spec sl None false (default_true ph) w)
      as (p & w' & E & _ & _ & T & I & W & C & P & _).
    rewrite E. simpl. rewrite T, I, W, P.
    split; [exists []; rewrite app_nil_r; repeat split|]. auto.
  - unfold replaceStateList. rewrite Hp. simpl.
    split; [exists []; rewrite app_nil_r; repeat split|]. auto.
  - unfold upgradeInitialState.
    destruct (saveStateAsInitial_keeps w) as (T & I & _ & W & _ & P & _).
    assert (Hs : pending (router (_saveStateAsInitial w)) = true).
    { rewrite (pending_same _ _ P). exact Hp. }
    destruct (handleHistoryState_pending m
                (_initialHistoryState (router (_saveStateAsInitial w)))
                true "upgradeInitialState" (_saveStateAsInitial w) Hs)
      as ((ev & T' & Hc & Hw) & I' & W' & _ & P' & _).
    rewrite I', W', P', I, W, P. rewrite T' , T.
    split; [exists ev; auto|]. auto.
  - unfold attachPopStateListener. simpl.
    destruct (truthy (_initialHistoryState (router w))); simpl.
    + split; [eexists; split; [reflexivity|]; split; reflexivity|]. auto.
    + unfold _saveStateAsInitial. simpl.
      destruct (hasRouterUrl (history_state (window (router w)))); simpl;
        (split; [eexists; split; [reflexivity|]; split; reflexivity|]); auto.
  - destruct (popstateListener (window (router w))).
    + unfold _onpopstate.
      destruct (handleHistoryState_pending m
                  (hs_or s (_initialHistoryState (router w))) false
                  "historyPopState" w Hp)
        as (Hev & I' & W' & _ & P' & _).
      destruct (_handleHistoryState m _ false "historyPopState" w)
        as [w1 [r|e]]; simpl in *; rewrite I', W', P'; auto.
    + split; [exists []; rewrite app_nil_r; repeat split|]. auto.
  - discriminate.
Qed.

(** X14. [currentStateList] changes in two ways only: when the front
    controller fulfils the transition in flight, and by [replaceStateList]
    on an idle router.  No other call, no popstate and no rejection changes
    it. *)
Theorem currentStateList_changes_only (m : URLStateMap) (a : action)
    (w : World) :
  currentStateList (router (step m a w)) <> currentStateList (router w) ->
  (a = ControllerSettles Fulfilled /\ inflight w <> None) \/
  (exists sl, a = ReplaceStateList sl /\ pending (router w) = false).
Proof.
  intros Hne.
  destruct a as [sl ph | sl ph | sl | | | s | o]; simpl in Hne.
  - exfalso. apply Hne. unfold enterStates.
    destruct (pending (router w)); reflexivity.
  - exfalso. apply Hne. unfold queueEnterStates, enterStates.
    destruct (pending (router w)); [|reflexivity].
    destruct (addToQueue_spec sl None false (default_true ph) w)
      as (p & w' & E & _ & _ & _ & _ & _ & C & _).
    rewrite E. exact C.
  - right. exists sl. split; [reflexivity|].
    destruct (pending (router w)) eqn:Hp; [|reflexivity].
    exfalso. apply Hne. unfold replaceStateList. rewrite Hp. reflexivity.
  - exfalso. apply Hne. unfold upgradeInitialState.
    destruct (saveStateAsInitial_keeps w) as (_ & _ & _ & _ & C & _).
    rewrite <- C. generalize (_saveStateAsInitial w). intros w0.
    unfold _handleHistoryState.
    destruct (_initialHistoryState (router w0)) as [| k | k | u];
      try reflexivity.
    destruct (fromURL m u) as [sl|e]; [|reflexivity].
    destruct (pending (router w0)); [|reflexivity].
    destruct (addToQueue_spec sl (Some u) true false w0)
      as (p & w' & E & _ & _ & _ & _ & _ & C' & _).
    rewrite E. exact C'.
  - exfalso. apply Hne. unfold attachPopStateListener. simpl.
    destruct (truthy (_initialHistoryState (router w))); [reflexivity|].
    unfold _saveStateAsInitial. simpl.
    destruct (hasRouterUrl (history_state (window (router w)))); reflexivity.
  - exfalso. apply Hne.
    destruct (popstateListener (window (router w))); [|reflexivity].
    unfold _onpopstate, _handleHistoryState.
    destruct (hs_or s (_initialHistoryState (router w))) as [| k | k | u];
      try reflexivity.
    destruct (fromURL m u) as [sl|e]; [|reflexivity].
    destruct (pending (router w)); [|reflexivity].
    destruct (addToQueue_spec sl (Some u) false false w)
      as (p & w' & E & _ & _ & _ & _ & _ & C' & _).
    rewrite E. exact C'.
  - destruct (inflight w) as [t|] eqn:Hin.
    + destruct o as [|e].
      * left. split; [reflexivity | discriminate].
      * exfalso. apply Hne. now rewrite (settle_current m _ w t Hin).
    + exfalso. apply Hne. unfold settle. now rewrite Hin.
Qed.

Lemma onpopstate_pending_own (m : URLStateMap) (u : url) (sl : StateList)
    (w : World) :
  pending (router w) = true -> fromURL m u = inl sl ->
  exists p w',
    _addToQueue sl (Some u) false false w = (w', p) /\
    _onpopstate m (HOwn u) w =
      (emit "historyPopState" sl u (Some p) w', Return None).
Proof.
  intros Hp Hu. unfold _onpopstate, hs_or, _handleHistoryState. simpl.
  rewrite Hu, Hp.
  destruct (_addToQueue sl (Some u) false false w) as [w' p].
  exists p, w'. split; reflexivity.
Qed.

(** ** The queue, continued *)

(** X11. Requests of callers and of the history share the one queue slot.
    A popstate that arrives after [queueEnterStates B] takes B's place: both
    get the same promise, and the transition started at the next settlement
    is the one of the popstate, with its url pinned and upgrade false.  In
    the other order [queueEnterStates C] takes the place of the popstate:
    the transition started is C's, with no url pinned, so that it writes
    history. *)
Theorem queue_slot_is_shared (m : URLStateMap) (w : World) (tA : Transition)
    (B C sl : StateList) (pb pc : option bool) (u : url) :
  pending (router w) = true -> inflight w = Some tA ->
  fromURL m u = inl sl ->
  (let w1 := fst (queueEnterStates B pb w) in
   let w2 := fst (_onpopstate m (HOwn u) w1) in
   exists p : pid,
     snd (queueEnterStates B pb w) = Return (Some p) /\
     trace w2 =
       trace w ++
       [Emit "historyPopState" sl u (Some p) (currentStateList (router w)) true] /\
     forall o : outcome,
       inflight (settle m o w2) =
         Some {| t_then := DoQueuedTransitionK sl (Some u) false (Some p);
                 t_promise := fresh w2 |}) /\
  (let w1 := fst (_onpopstate m (HOwn u) w) in
   let w2 := fst (queueEnterStates C pc w1) in
   exists p : pid,
     trace w1 =
       trace w ++
       [Emit "historyPopState" sl u (Some p) (currentStateList (router w)) true] /\
     snd (queueEnterStates C pc w1) = Return (Some p) /\
     trace w2 = trace w1 /\
     forall o : outcome,
       inflight (settle m o w2) =
         Some {| t_then := DoQueuedTransitionK C None (default_true pc) (Some p);
                 t_promise := fresh w2 |}).
Proof.
  intros Hp Hin Hu. split.
  - intros w1 w2. unfold w2, w1. clear w1 w2.
    rewrite (queueEnterStates_pending B pb w Hp). simpl.
    destruct (addToQueue_spec B None false (default_true pb) w)
      as (p & w1 & E1 & Q1 & _ & T1 & I1 & _ & C1 & P1 & _).
    rewrite E1. simpl.
    assert (Hp1 : pending (router w1) = true).
    { rewrite (pending_same _ _ P1). exact Hp. }
    destruct (onpopstate_pending_own m u sl w1 Hp1 Hu) as (p' & w2 & E2 & E3).
    destruct (addToQueue_spec sl (Some u) false false w1)
      as (p'' & w2' & E2' & Q2 & Same & T2 & I2 & _ & C2 & P2 & _).
    rewrite E2 in E2'. inversion E2'. subst p'' w2'. clear E2'.
    assert (p' = p) by (apply Same; rewrite Q1; reflexivity). subst p'.
    rewrite E3. simpl. exists p. split; [reflexivity|]. split.
    + rewrite T2, T1, C2, C1. rewrite (pending_same _ _ P2), Hp1. reflexivity.
    + intros o.
      set (w3 := emit "historyPopState" sl u (Some p) w2).
      assert (Hin3 : inflight w3 = Some tA) by (simpl; congruence).
      pose proof (settle_next m o w3 tA Hin3) as N. cbv zeta in N.
      change (_queue (router w3)) with (_queue (router w2)) in N.
      rewrite Q2 in N. simpl in N. destruct N as (N & _). exact N.
  - intros w1 w2. unfold w2, w1. clear w1 w2.
    destruct (onpopstate_pending_own m u sl w Hp Hu) as (p & w1 & E1 & E3).
    destruct (addToQueue_spec sl (Some u) false false w)
      as (p' & w1' & E1' & Q1 & _ & T1 & I1 & _ & C1 & P1 & _).
    rewrite E1 in E1'. inversion E1'. subst p' w1'. clear E1'.
    rewrite E3. simpl.
    set (w1e := emit "historyPopState" sl u (Some p) w1).
    assert (Hp1 : pending (router w1e) = true).
    { change (router w1e) with (router w1).
      rewrite (pending_same _ _ P1). exact Hp. }
    rewrite (queueEnterStates_pending C pc w1e Hp1). simpl.
    destruct (addToQueue_spec C None false (default_true pc) w1e)
      as (p' & w2 & E2 & Q2 & Same & T2 & I2 & _ & C2 & P2 & _).
    rewrite E2. simpl.
    assert (p' = p).
    { apply Same. change (router w1e) with (router w1). rewrite Q1.
      reflexivity. } subst p'.
    exists p. split; [|split; [reflexivity|split; [exact T2|]]].
    + unfold w1e. simpl. rewrite T1, C1, (pending_same _ _ P1), Hp.
      reflexivity.
    + intros o.
      assert (Hin2 : inflight w2 = Some tA).
      { rewrite I2. unfold w1e. simpl. congruence. }
      pose proof (settle_next m o w2 tA Hin2) as N. cbv zeta in N.
      rewrite Q2 in N. simpl in N. destruct N as (N & _). exact N.
Qed.

(** X12. A queued [queueEnterStates C] keeps its [pushHistory]: when the
    transition before it has settled, in whatever way, and the front
    controller fulfils C, the record of C's url is pushed unless
    [pushHistory] was false, and then replaced; 'transitionComplete' is
    emitted, the promise of the queue and that of the chain are fulfilled,
    [currentStateList] is C and the router is idle. *)
Theorem queued_transition_completes (m : URLStateMap) (w : World)
    (tA : Transition) (C : StateList) (pc : option bool) (u : url)
    (oA : outcome) :
  pending (router w) = true -> inflight w = Some tA ->
  _pendingReplace (router w) = None -> toURL m C = inl u ->
  let wq := fst (queueEnterStates C pc w) in
  let wA := settle m oA wq in
  let wC := settle m Fulfilled wA in
  exists p pC : pid,
    snd (queueEnterStates C pc w) = Return (Some p) /\
    trace wC =
      trace wA ++
      [FrontControllerSettled Fulfilled;
       if default_true pc then PushState (HOwn u) u
       else ReplaceState (HOwn u) u;
       Emit "transitionComplete" C u None (Some C) true;
       Settled p Fulfilled;
       Settled pC Fulfilled] /\
    currentStateList (router wC) = Some C /\
    window (router wC) = host_write (HOwn u) u (window (router wA)) /\
    pending (router wC) = false.
Proof.
  intros Hp Hin Hr Hu wq wA wC.
  unfold wC, wA, wq. clear wC wA wq.
  rewrite (queueEnterStates_pending C pc w Hp). simpl.
  destruct (addToQueue_spec C None false (default_true pc) w)
    as (p & wq & E & Q & _ & T & I & _ & _ & P & R & _).
  rewrite E. simpl.
  assert (HinA : inflight wq = Some tA) by congruence.
  pose proof (settle_next m oA wq tA HinA) as N. cbv zeta in N.
  rewrite Q in N. simpl in N. destruct N as (Ni & Np & Nq).
  pose proof (settle_pendingReplace m oA wq tA HinA) as RA.
  assert (RA' : _pendingReplace (router (settle m oA wq)) = None).
  { rewrite RA. destruct (t_then tA); try reflexivity. congruence. }
  set (wA := settle m oA wq) in *.
  pose proof (settle_trace m Fulfilled wA _ Ni) as TC.
  pose proof (settle_current m Fulfilled wA _ Ni) as CC.
  pose proof (settle_window m Fulfilled wA _ Ni) as WC.
  pose proof (settle_next m Fulfilled wA _ Ni) as NC. cbv zeta in NC.
  rewrite Nq in TC, NC. simpl in TC, CC, WC, NC.
  unfold handlerEvents, transitionOutcome, settlements in TC.
  simpl in TC. unfold replaceOr in TC, CC, WC.
  rewrite RA' in TC, CC, WC. rewrite Hu in TC, WC. simpl in TC.
  exists p, (fresh wq). split; [reflexivity|].
  rewrite (pending_of_promise _ _ Np) in TC.
  split; [exact TC|]. split; [exact CC|]. split; [exact WC|].
  destruct NC as (_ & NCp & _). unfold pending. now rewrite NCp.
Qed.

(** ** Invariants of every run *)

Lemma hostRecord_own (x : Window) : hasRouterUrl (hostRecord x) = true.
Proof.
  unfold hostRecord. destruct (hasRouterUrl (history_state x)) eqn:E.
  - exact E.
  - reflexivity.
Qed.

Lemma handleHistoryState_window (m : URLStateMap) (h : HistoryState)
    (upg : bool) (name : string) (w : World) :
  window (router (fst (_handleHistoryState m h upg name w))) =
  window (router w).
Proof.
  unfold _handleHistoryState.
  destruct h as [| k | k | u]; try reflexivity.
  destruct (fromURL m u) as [sl|e]; [|reflexivity].
  destruct (pending (router w)); [|reflexivity].
  destruct (addToQueue_spec sl (Some u) upg false w)
    as (p & w' & E & _ & _ & _ & _ & W & _).
  rewrite E. exact W.
Qed.

Lemma step_listener (m : URLStateMap) (a : action) (w : World) :
  popstateListener (window (router (step m a w))) =
  match a with
  | AttachPopStateListener => true
  | _ => popstateListener (window (router w))
  end.
Proof.
  destruct a as [sl ph | sl ph | sl | | | s | o]; simpl.
  - unfold enterStates. destruct (pending (router w)); reflexivity.
  - unfold queueEnterStates, enterStates.
    destruct (pending (router w)); [|reflexivity].
    destruct (addToQueue_spec sl None false (default_true ph) w)
      as (p & w' & E & _ & _ & _ & _ & W & _).
    rewrite E. simpl. now rewrite W.
  - unfold replaceStateList, _pushHistoryState.
    destruct (pending (router w)); [reflexivity|]. simpl.
    destruct (toURL m sl); reflexivity.
  - unfold upgradeInitialState. rewrite handleHistoryState_window.
    destruct (saveStateAsInitial_keeps w) as (_ & _ & _ & W & _).
    now rewrite W.
  - unfold attachPopStateListener. simpl.
    destruct (truthy (_initialHistoryState (router w))); [reflexivity|].
    unfold _saveStateAsInitial. simpl.
    destruct (hasRouterUrl (history_state (window (router w)))); reflexivity.
  - destruct (popstateListener (window (router w))) eqn:L; [|exact L].
    unfold _onpopstate.
    pose proof (handleHistoryState_window m
                  (hs_or s (_initialHistoryState (router w))) false
                  "historyPopState" w) as W.
    destruct (_handleHistoryState m _ false "historyPopState" w)
      as [w1 [r|e]]; simpl in *; now rewrite W.
  - destruct (inflight w) as [t|] eqn:Hin.
    + rewrite (settle_window m o w t Hin).
      destruct o; [|reflexivity].
      destruct (pinned (t_then t)); [reflexivity|].
      destruct (toURL m (entered (t_then t) (router w))); reflexivity.
    + unfold settle. now rewrite Hin.
Qed.

Lemma step_initial (m : URLStateMap) (a : action) (w : World) :
  _initialHistoryState (router (step m a w)) =
  match a with
  | UpgradeInitialState => hostRecord (window (router w))
  | AttachPopStateListener =>
      if truthy (_initialHistoryState (router w))
      then _initialHistoryState (router w)
      else hostRecord (window (router w))
  | _ => _initialHistoryState (router w)
  end.
Proof.
  destruct a as [sl ph | sl ph | sl | | | s | o]; simpl.
  - unfold enterStates. destruct (pending (router w)); reflexivity.
  - unfold queueEnterStates, enterStates.
    destruct (pending (router w)); [|reflexivity].
    destruct (addToQueue_spec sl None false (default_true ph) w)
      as (p & w' & E & _ & _ & _ & _ & _ & _ & _ & _ & I).
    rewrite E. exact I.
  - unfold replaceStateList, _pushHistoryState.
    destruct (pending (router w)); [reflexivity|]. simpl.
    destruct (toURL m sl); reflexivity.
  - unfold upgradeInitialState.
    rewrite handleHistoryState_initial. apply saveStateAsInitial_reads.
  - unfold attachPopStateListener. simpl.
    destruct (truthy (_initialHistoryState (router w))); [reflexivity|].
    unfold _saveStateAsInitial, hostRecord. simpl.
    destruct (hasRouterUrl (history_state (window (router w)))); reflexivity.
  - destruct (popstateListener (window (router w))); [|reflexivity].
    unfold _onpopstate.
    pose proof (handleHistoryState_initial m
                  (hs_or s (_initialHistoryState (router w))) false
                  "historyPopState" w) as H.
    destruct (_handleHistoryState m _ false "historyPopState" w)
      as [w1 [r|e]]; exact H.
  - apply settle_initial.
Qed.

Lemma step_initial_ok (m : URLStateMap) (a : action) (w : World) :
  initial_ok w -> initial_ok (step m a w).
Proof.
  unfold initial_ok. intros [H1 H2].
  rewrite step_initial, step_listener.
  pose proof (hostRecord_own (window (router w))) as Ho.
  destruct a; auto.
  destruct (truthy (_initialHistoryState (router w))) eqn:Ht.
  - destruct H1 as [H1|H1]; [rewrite H1 in Ht; discriminate|]. auto.
  - auto.
Qed.

(** X15. In every run of a new router the captured initial record is null
    or a record of the router, and once the popstate listener is attached it
    is a record of the router. *)
Theorem initial_record_is_own (m : URLStateMap) (l : list action)
    (x : Window) :
  popstateListener x = false ->
  let w := run m l (newRouter x) in
  (_initialHistoryState (router w) = HNull \/
   hasRouterUrl (_initialHistoryState (router w)) = true) /\
  (popstateListener (window (router w)) = true ->
   hasRouterUrl (_initialHistoryState (router w)) = true).
Proof.
  intros Hx w.
  assert (H0 : initial_ok (newRouter x)).
  { split; [left; reflexivity|]. simpl. rewrite Hx. discriminate. }
  unfold w. clear w. revert H0. generalize (newRouter x).
  induction l as [|a l IH]; intros w0 H0.
  - exact H0.
  - simpl. apply IH. now apply step_initial_ok.
Qed.

Lemma addToQueue_queue_ok (sl : StateList) (fh : option url) (upg ph : bool)
    (w : World) :
  pending (router w) = true ->
  queue_ok (fst (_addToQueue sl fh upg ph w)).
Proof.
  intros Hp.
  destruct (addToQueue_spec sl fh upg ph w)
    as (p & w' & E & Q & _ & _ & _ & _ & _ & P & _).
  rewrite E. simpl. right. split.
  - rewrite (pending_same _ _ P). exact Hp.
  - exists sl, fh, upg, ph, p. exact Q.
Qed.

Lemma queue_ok_idle (w : World) :
  queue_ok w -> pending (router w) = false -> _queue (router w) = emptyQueue.
Proof.
  intros [H|[H _]] Hp; [exact H | congruence].
Qed.

Lemma handleHistoryState_queue_ok (m : URLStateMap) (h : HistoryState)
    (upg : bool) (name : string) (w : World) :
  queue_ok w -> queue_ok (fst (_handleHistoryState m h upg name w)).
Proof.
  intros H. unfold _handleHistoryState.
  destruct h as [| k | k | u]; try exact H.
  destruct (fromURL m u) as [sl|e]; [|exact H].
  destruct (pending (router w)) eqn:Hp.
  - pose proof (addToQueue_queue_ok sl (Some u) upg false w Hp) as H'.
    destruct (_addToQueue sl (Some u) upg false w) as [w' p]. exact H'.
  - left. simpl. exact (queue_ok_idle w H Hp).
Qed.

Lemma step_queue_ok (m : URLStateMap) (a : action) (w : World) :
  queue_ok w -> queue_ok (step m a w).
Proof.
  intros H. destruct a as [sl ph | sl ph | sl | | | s | o]; simpl.
  - unfold enterStates. destruct (pending (router w)) eqn:Hp.
    + exact H.
    + left. simpl. exact (queue_ok_idle w H Hp).
  - unfold queueEnterStates, enterStates.
    destruct (pending (router w)) eqn:Hp.
    + pose proof (addToQueue_queue_ok sl None false (default_true ph) w Hp)
        as H'.
      destruct (_addToQueue sl None false (default_true ph) w) as [w' p].
      exact H'.
    + left. simpl. exact (queue_ok_idle w H Hp).
  - unfold replaceStateList, _pushHistoryState.
    destruct (pending (router w)) eqn:Hp.
    + destruct H as [H|[_ H]]; [left; exact H|]. right. simpl.
      split; [exact Hp | exact H].
    + left. simpl.
      destruct (toURL m sl); simpl; exact (queue_ok_idle w H Hp).
  - unfold upgradeInitialState. apply handleHistoryState_queue_ok.
    destruct (saveStateAsInitial_keeps w) as (_ & _ & _ & _ & _ & P & _ & Q).
    unfold queue_ok. rewrite Q, (pending_same _ _ P). exact H.
  - unfold attachPopStateListener. simpl.
    destruct (truthy (_initialHistoryState (router w))); simpl.
    + exact H.
    + unfold _saveStateAsInitial. simpl.
      destruct (hasRouterUrl (history_state (window (router w)))); exact H.
  - destruct (popstateListener (window (router w))); [|exact H].
    unfold _onpopstate.
    pose proof (handleHistoryState_queue_ok m
                  (hs_or s (_initialHistoryState (router w))) false
                  "historyPopState" w H) as H'.
    destruct (_handleHistoryState m _ false "historyPopState" w)
      as [w1 [r|e]]; exact H'.
  - destruct (inflight w) as [t|] eqn:Hin.
    + pose proof (settle_next m o w t Hin) as N. cbv zeta in N.
      destruct (hasEntry (_queue (router w))) eqn:He.
      * destruct N as (_ & _ & N). left. exact N.
      * destruct N as (_ & _ & N). left. rewrite N.
        destruct H as [H|[_ (sl & fh & upg & ph & p & H)]]; [exact H|].
        rewrite H in He. discriminate.
    + unfold settle. rewrite Hin. exact H.
Qed.

(** X16. In every run of a new router an idle router has an empty queue: an
    entry is only ever held while a transition is pending, and it is
    complete, with its state list and its promise. *)
Theorem idle_router_has_empty_queue (m : URLStateMap) (l : list action)
    (x : Window) :
  let w := run m l (newRouter x) in
  (pending (router w) = false -> _queue (router w) = emptyQueue) /\
  (hasEntry (_queue (router w)) = true ->
   pending (router w) = true /\
   exists sl p, q_stateList (_queue (router w)) = Some sl /\
                promise (_queue (router w)) = Some p).
Proof.
  intros w.
  assert (H : queue_ok w).
  { unfold w. clear w.
    assert (H0 : queue_ok (newRouter x)) by (left; reflexivity).
    revert H0. generalize (newRouter x).
    induction l as [|a l IH]; intros w0 H0; simpl.
    - exact H0.
    - apply IH. now apply step_queue_ok. }
  split.
  - intros Hp. exact (queue_ok_idle w H Hp).
  - intros He. destruct H as [H|[Hp (sl & fh & upg & ph & p & H)]].
    + rewrite H in He. discriminate.
    + split; [exact Hp|]. exists sl, p. rewrite H. split; reflexivity.
Qed.

(** *** Calls and answers *)

Lemma alternate_app (b : bool) (l1 l2 : list event) :
  alternate b (l1 ++ l2) =
  match alternate b l1 with
  | Some b' => alternate b' l2
  | None => None
  end.
Proof.
  revert b. induction l1 as [|e l1 IH]; intros b; simpl.
  - reflexivity.
  - destruct e; try apply IH; destruct b; try reflexivity; apply IH.
Qed.

Lemma alternate_neutral (b : bool) (l : list event) :
  forallb (fun e => negb (isCall e) && negb (isAnswer e)) l = true ->
  alternate b l = Some b.
Proof.
  induction l as [|e l IH]; simpl; intros H.
  - reflexivity.
  - apply andb_prop in H. destruct H as [He Hl].
    destruct e; simpl in He; try discriminate; now apply IH.
Qed.

Lemma handlerEvents_neutral (m : URLStateMap) (k : continuation) (o : outcome)
    (r : Router) (b : bool) :
  alternate b (handlerEvents m k o r) = Some b.
Proof.
  apply alternate_neutral.
  unfold handlerEvents. destruct o; [|reflexivity].
  destruct (pinned k); [reflexivity|].
  destruct (toURL m (entered k r)); [|reflexivity].
  destruct (pushes k); reflexivity.
Qed.

Lemma settlements_neutral (t : Transition) (o : outcome) (b : bool) :
  alternate b (settlements t o) = Some b.
Proof.
  apply alternate_neutral. unfold settlements.
  destruct (t_then t) as [sl ph | sl u | sl fh ph [q|]]; reflexivity.
Qed.

Lemma handleHistoryState_serial (m : URLStateMap) (h : HistoryState)
    (upg : bool) (name : string) (w : World) :
  serial w -> serial (fst (_handleHistoryState m h upg name w)).
Proof.
  unfold serial. intros H. unfold _handleHistoryState.
  destruct h as [| k | k | u]; try exact H.
  destruct (fromURL m u) as [sl|e]; [|exact H].
  destruct (pending (router w)) eqn:Hp.
  - destruct (addToQueue_spec sl (Some u) upg false w)
      as (p & w' & E & _ & _ & T & _ & _ & _ & P & _).
    rewrite E. simpl. rewrite T, alternate_app, H.
    rewrite (pending_same _ _ P), Hp. reflexivity.
  - simpl. rewrite !alternate_app, H. reflexivity.
Qed.

Lemma step_serial (m : URLStateMap) (a : action) (w : World) :
  consistent w -> serial w -> serial (step m a w).
Proof.
  unfold serial. intros Hc H.
  destruct a as [sl ph | sl ph | sl | | | s | o]; simpl.
  - unfold enterStates. destruct (pending (router w)) eqn:Hp; simpl.
    + rewrite alternate_app, H, Hp. reflexivity.
    + rewrite alternate_app, H. reflexivity.
  - unfold queueEnterStates, enterStates.
    destruct (pending (router w)) eqn:Hp; simpl.
    + destruct (addToQueue_spec sl None false (default_true ph) w)
        as (p & w' & E & _ & _ & T & _ & _ & _ & P & _).
      rewrite E. simpl. rewrite T, (pending_same _ _ P), Hp. exact H.
    + rewrite alternate_app, H. reflexivity.
  - unfold replaceStateList, _pushHistoryState.
    destruct (pending (router w)) eqn:Hp; simpl.
    + rewrite H. unfold pending in *. simpl. now rewrite Hp.
    + destruct (toURL m sl); simpl.
      * rewrite alternate_app, H. unfold pending in *. simpl. now rewrite Hp.
      * rewrite H. unfold pending in *. simpl. now rewrite Hp.
  - unfold upgradeInitialState. apply handleHistoryState_serial.
    destruct (saveStateAsInitial_keeps w) as (T & _ & _ & _ & _ & P & _).
    unfold serial. rewrite T, (pending_same _ _ P). exact H.
  - unfold attachPopStateListener. simpl.
    destruct (truthy (_initialHistoryState (router w))); simpl.
    + rewrite alternate_app, H. reflexivity.
    + unfold _saveStateAsInitial. simpl.
      destruct (hasRouterUrl (history_state (window (router w)))); simpl;
        rewrite alternate_app, H; reflexivity.
  - destruct (popstateListener (window (router w))); [|exact H].
    unfold _onpopstate.
    pose proof (handleHistoryState_serial m
                  (hs_or s (_initialHistoryState (router w))) false
                  "historyPopState" w H) as H'.
    destruct (_handleHistoryState m _ false "historyPopState" w)
      as [w1 [r|e]]; exact H'.
  - destruct (inflight w) as [t|] eqn:Hin.
    + unfold consistent in Hc. rewrite Hin in Hc.
      rewrite (pending_of_promise _ _ Hc) in H.
      rewrite (settle_trace m o w t Hin).
      pose proof (settle_next m o w t Hin) as N. cbv zeta in N.
      rewrite alternate_app, H. simpl.
      rewrite alternate_app, handlerEvents_neutral.
      rewrite alternate_app. unfold drained.
      destruct (hasEntry (_queue (router w))); simpl;
        rewrite settlements_neutral; destruct N as (_ & N & _).
      * now rewrite (pending_of_promise _ _ N).
      * unfold pending. now rewrite N.
    + unfold settle. rewrite Hin. exact H.
Qed.

(** X17. In every run of a new router the calls of the front controller and
    its answers alternate in the trace: the front controller is never called
    while an earlier call is unanswered, and a call is open exactly while
    the router is pending. *)
Theorem front_controller_is_serialized (m : URLStateMap) (l : list action)
    (x : Window) :
  let w := run m l (newRouter x) in
  alternate false (trace w) = Some (pending (router w)).
Proof.
  intros w. unfold w. clear w.
  assert (H0 : consistent (newRouter x) /\ serial (newRouter x))
    by (split; reflexivity).
  revert H0. generalize (newRouter x).
  induction l as [|a l IH]; intros w0 [Hc Hs]; simpl.
  - exact Hs.
  - apply IH. split; [now apply step_consistent | now apply step_serial].
Qed.

Lemma hostRecord_url (x : Window) : hostRecord x = HOwn (hostUrl x).
Proof.
  unfold hostRecord, hostUrl. destruct (history_state x); reflexivity.
Qed.

(** X18. [upgradeInitialState] during a transition is queued: it returns the
    promise of the queue and emits 'upgradeInitialState' with it, and at the
    next settlement the front controller is called with the decoded list and
    upgrade true, for a transition whose url is pinned. *)
Theorem upgrade_is_queued (m : URLStateMap) (w : World) (tA : Transition)
    (sl : StateList) :
  pending (router w) = true -> inflight w = Some tA ->
  fromURL m (hostUrl (window (router w))) = inl sl ->
  let u := hostUrl (window (router w)) in
  let w1 := fst (upgradeInitialState m w) in
  exists p : pid,
    snd (upgradeInitialState m w) = Return (Some p) /\
    trace w1 =
      trace w ++
      [Emit "upgradeInitialState" sl u (Some p)
         (currentStateList (router w)) true] /\
    forall o : outcome,
      inflight (settle m o w1) =
        Some {| t_then := DoQueuedTransitionK sl (Some u) false (Some p);
                t_promise := fresh w1 |} /\
      In (FrontControllerState sl (Some true)) (trace (settle m o w1)).
Proof.
  intros Hp Hin Hu u w1. unfold w1, u. clear w1 u.
  unfold upgradeInitialState.
  rewrite saveStateAsInitial_reads, hostRecord_url.
  destruct (saveStateAsInitial_keeps w) as (T0 & I0 & _ & W0 & C0 & P0 & _).
  set (w0 := _saveStateAsInitial w) in *.
  assert (Hp0 : pending (router w0) = true).
  { rewrite (pending_same _ _ P0). exact Hp. }
  unfold _handleHistoryState. rewrite Hu, Hp0.
  destruct (addToQueue_spec sl (Some (hostUrl (window (router w)))) true false w0)
    as (p & w1 & E & Q & _ & T & I & _ & C & P & _).
  rewrite E. simpl. exists p. split; [reflexivity|]. split.
  - rewrite T, T0, C, C0, (pending_same _ _ P), Hp0. reflexivity.
  - intros o.
    set (w2 := emit "upgradeInitialState" sl (hostUrl (window (router w)))
                 (Some p) w1).
    assert (Hin2 : inflight w2 = Some tA) by (simpl; congruence).
    pose proof (settle_next m o w2 tA Hin2) as N. cbv zeta in N.
    pose proof (settle_trace m o w2 tA Hin2) as TT.
    change (_queue (router w2)) with (_queue (router w1)) in N, TT.
    rewrite Q in N, TT. simpl in N. destruct N as (N & _).
    split; [exact N|].
    rewrite TT. apply in_or_app. right. right.
    apply in_or_app. right. left. reflexivity.
Qed.

(** ** The properties at work *)

Lemma enterStates_completes_witness :
  let w := newRouter windowStub in
  pending (router w) = false /\ _pendingReplace (router w) = None /\
  hasEntry (_queue (router w)) = false /\
  toURL testMap ["foo"] = inl "/foo/bar" /\
  currentStateList
    (router (run testMap [EnterStates ["foo"] None;
                          ControllerSettles Fulfilled] w)) = Some ["foo"].
Proof.
  intros w. repeat (split; [reflexivity|]).
  destruct (enterStates_completes testMap w ["foo"] None "/foo/bar"
              eq_refl eq_refl eq_refl eq_refl) as (_ & _ & H & _).
  exact H.
Defined.

Lemma replaceStateList_idle_witness :
  let w := newRouter windowStub in
  pending (router w) = false /\
  currentStateList (router (fst (replaceStateList testMap ["foo"] w))) =
    Some ["foo"].
Proof.
  intros w. split; [reflexivity|].
  destruct (replaceStateList_idle testMap w ["foo"] eq_refl) as (H & _).
  exact H.
Defined.

Lemma failure_drops_replacement_witness :
  let w := run testMap [EnterStates ["foo"] None] (newRouter windowStub) in
  let t := {| t_then := EnterStatesK ["foo"] true; t_promise := 0 |} in
  inflight w = Some t /\ pending (router w) = true /\
  viaHandleHistoryState (t_then t) = false /\
  _pendingReplace
    (router (run testMap [ReplaceStateList ["bar"];
                          ControllerSettles (Rejected "E")] w)) = None.
Proof.
  intros w t. repeat (split; [reflexivity|]).
  destruct (failure_drops_replacement testMap w t ["bar"] "E"
              eq_refl eq_refl eq_refl) as (_ & H & _).
  exact H.
Defined.

Lemma last_replacement_wins_witness :
  let w := run testMap [EnterStates ["foo"] None] (newRouter windowStub) in
  let t := {| t_then := EnterStatesK ["foo"] true; t_promise := 0 |} in
  inflight w = Some t /\ pending (router w) = true /\
  run testMap [ReplaceStateList ["bar"]; ReplaceStateList ["baz"]] w =
    run testMap [ReplaceStateList ["baz"]] w.
Proof.
  intros w t. repeat (split; [reflexivity|]).
  destruct (last_replacement_wins testMap w t ["bar"] ["baz"]
              eq_refl eq_refl) as (H & _).
  exact H.
Defined.

Lemma popstate_transition_witness :
  let w := run testMap [AttachPopStateListener] (newRouter windowStub) in
  popstateListener (window (router w)) = true /\
  pending (router w) = false /\ hasEntry (_queue (router w)) = false /\
  fromURL testMap "/qwerty" = inl ["baz"] /\
  currentStateList
    (router (run testMap [PopState (HOwn "/qwerty");
                          ControllerSettles Fulfilled] w)) = Some ["baz"].
Proof.
  intros w. repeat (split; [reflexivity|]).
  destruct (popstate_transition testMap w "/qwerty" ["baz"]
              eq_refl eq_refl eq_refl eq_refl) as (_ & H & _).
  exact H.
Defined.

Lemma popstate_undecodable_witness :
  let w := run testMap [AttachPopStateListener] (newRouter windowStub) in
  hs_or (HOwn "/nowhere") (_initialHistoryState (router w)) = HOwn "/nowhere" /\
  fromURL testMap "/nowhere" = inr "Should not occur in this test case" /\
  step testMap (PopState (HOwn "/nowhere")) w = w.
Proof.
  intros w. repeat (split; [reflexivity|]).
  destruct (popstate_undecodable testMap w (HOwn "/nowhere") "/nowhere"
              "Should not occur in this test case" eq_refl eq_refl)
    as (_ & H).
  exact H.
Defined.

Lemma upgrade_undecodable_witness :
  let w := newRouter {| location := "/nowhere"; history_state := HNull;
                        popstateListener := false |} in
  fromURL testMap (hostUrl (window (router w))) =
    inr "Should not occur in this test case" /\
  snd (upgradeInitialState testMap w) =
    Throw "Should not occur in this test case".
Proof.
  intros w. split; [reflexivity|].
  rewrite (upgrade_undecodable testMap w
             "Should not occur in this test case" eq_refl).
  reflexivity.
Defined.

Lemma upgrade_transition_witness :
  let w := newRouter windowStub in
  pending (router w) = false /\ hasEntry (_queue (router w)) = false /\
  fromURL testMap (hostUrl (window (router w))) = inl ["foo"] /\
  currentStateList
    (router (run testMap [UpgradeInitialState;
                          ControllerSettles Fulfilled] w)) = Some ["foo"].
Proof.
  intros w. repeat (split; [reflexivity|]).
  destruct (upgrade_transition testMap w ["foo"] eq_refl eq_refl eq_refl)
    as (_ & H & _).
  exact H.
Defined.

Lemma written_record_comes_back_witness :
  let w := run testMap [AttachPopStateListener] (newRouter windowStub) in
  let w1 := run testMap [EnterStates ["bar"] None;
                         ControllerSettles Fulfilled] w in
  popstateListener (window (router w)) = true /\
  pending (router w) = false /\ _pendingReplace (router w) = None /\
  hasEntry (_queue (router w)) = false /\
  toURL testMap ["bar"] = inl "/bar" /\ fromURL testMap "/bar" = inl ["bar"] /\
  history_state (window (router w1)) = HOwn "/bar".
Proof.
  intros w w1. repeat (split; [reflexivity|]).
  destruct (written_record_comes_back testMap w ["bar"] None "/bar"
              eq_refl eq_refl eq_refl eq_refl eq_refl eq_refl) as (H & _).
  exact H.
Defined.

Lemma popstate_falls_back_on_initial_witness :
  let w := newRouter windowStub in
  truthy HNull = false /\ _initialHistoryState (router w) = HNull /\
  hasRouterUrl (history_state (window (router w))) = false /\
  pending (router w) = false /\
  fromURL testMap (location (window (router w))) = inl ["foo"] /\
  _initialHistoryState
    (router (run testMap [AttachPopStateListener; PopState HNull] w)) =
    HOwn "/foo/bar".
Proof.
  intros w. repeat (split; [reflexivity|]).
  destruct (popstate_falls_back_on_initial testMap w HNull ["foo"]
              eq_refl eq_refl eq_refl eq_refl eq_refl) as (H & _).
  exact H.
Defined.

Lemma queue_slot_is_shared_witness :
  let w := run testMap [EnterStates ["foo"] None] (newRouter windowStub) in
  let t := {| t_then := EnterStatesK ["foo"] true; t_promise := 0 |} in
  pending (router w) = true /\ inflight w = Some t /\
  fromURL testMap "/qwerty" = inl ["baz"] /\
  exists p : pid,
    snd (queueEnterStates ["bar"] None w) = Return (Some p).
Proof.
  intros w t. repeat (split; [reflexivity|]).
  destruct (queue_slot_is_shared testMap w t ["bar"] ["bar"] ["baz"] None None
              "/qwerty" eq_refl eq_refl eq_refl) as ((p & H & _) & _).
  exists p. exact H.
Defined.

Lemma queued_transition_completes_witness :
  let w := run testMap [EnterStates ["foo"] None] (newRouter windowStub) in
  let t := {| t_then := EnterStatesK ["foo"] true; t_promise := 0 |} in
  pending (router w) = true /\ inflight w = Some t /\
  _pendingReplace (router w) = None /\ toURL testMap ["bar"] = inl "/bar" /\
  exists p : pid,
    snd (queueEnterStates ["bar"] (Some false) w) = Return (Some p).
Proof.
  intros w t. repeat (split; [reflexivity|]).
  destruct (queued_transition_completes testMap w t ["bar"] (Some false)
              "/bar" (Rejected "E") eq_refl eq_refl eq_refl eq_refl)
    as (p & pC & H & _).
  exists p. exact H.
Defined.

Lemma pending_calls_are_quiet_witness :
  let w := run testMap [EnterStates ["foo"] None] (newRouter windowStub) in
  pending (router w) = true /\
  isCallerAction (QueueEnterStates ["bar"] None) = true /\
  inflight (step testMap (QueueEnterStates ["bar"] None) w) = inflight w.
Proof.
  intros w. repeat (split; [reflexivity|]).
  destruct (pending_calls_are_quiet testMap (QueueEnterStates ["bar"] None) w
              eq_refl eq_refl) as (_ & H & _).
  exact H.
Defined.

Lemma currentStateList_changes_only_witness :
  let w := run testMap [EnterStates ["foo"] None] (newRouter windowStub) in
  currentStateList (router (step testMap (ControllerSettles Fulfilled) w)) <>
    currentStateList (router w) /\
  ((ControllerSettles Fulfilled = ControllerSettles Fulfilled /\
    inflight w <> None) \/
   (exists sl, ControllerSettles Fulfilled = ReplaceStateList sl /\
               pending (router w) = false)).
Proof.
  intros w.
  assert (H : currentStateList
                (router (step testMap (ControllerSettles Fulfilled) w)) <>
              currentStateList (router w)).
  { vm_compute. discriminate. }
  split; [exact H|].
  exact (currentStateList_changes_only testMap (ControllerSettles Fulfilled)
           w H).
Defined.

Lemma initial_record_is_own_witness :
  popstateListener windowStub = false /\
  hasRouterUrl
    (_initialHistoryState
       (router (run testMap [AttachPopStateListener] (newRouter windowStub)))) =
    true.
Proof.
  split; [reflexivity|].
  destruct (initial_record_is_own testMap [AttachPopStateListener] windowStub
              eq_refl) as (_ & H).
  apply H. reflexivity.
Defined.

Lemma upgrade_is_queued_witness :
  let w := run testMap [EnterStates ["bar"] None] (newRouter windowStub) in
  let t := {| t_then := EnterStatesK ["bar"] true; t_promise := 0 |} in
  pending (router w) = true /\ inflight w = Some t /\
  fromURL testMap (hostUrl (window (router w))) = inl ["foo"] /\
  exists p : pid, snd (upgradeInitialState testMap w) = Return (Some p).
Proof.
  intros w t. repeat (split; [reflexivity|]).
  destruct (upgrade_is_queued testMap w t ["foo"] eq_refl eq_refl eq_refl)
    as (p & H & _).
  exists p. exact H.
Defined.
